(** * LOOLWebSocket: the thread-safe frame wrapper of wsd/LOOLWebSocket.hpp

    A shallow embedding of [LOOLWebSocket::receiveFrame] and
    [LOOLWebSocket::sendFrame].  The base class [Poco::Net::WebSocket] is an
    external collaborator: it is taken as an interface ([Transport]) whose
    three operations thread an abstract socket state.  Every call the wrapper
    makes on the socket or on one of its two mutexes is recorded, in program
    order, in a trace of events, so that what is written, in which order and
    under which lock can be stated about the code.

    C++ [int] values are modelled as [Z].  The two functions perform no
    arithmetic on them (only comparisons and a bitwise and/or of flag
    constants), so no wrap-around arises.  The [LOG_*] macros only format
    text and are left out. *)

From Stdlib Require Import ZArith List String Ascii Bool Lia DecimalString.
From Stdlib Require DecimalPos DecimalZ DecimalFacts.
From Stdlib.Strings Require Import Byte.
Import ListNotations.
Open Scope Z_scope.

(** ** Constants of Poco::Net::WebSocket

    The frame flag and opcode enumerators the wrapper uses, with the values
    of Poco/Net/WebSocket.h (those of RFC 6455). *)
Module WebSocket.
Definition FRAME_FLAG_FIN : Z := 128.   (* 0x80 *)
Definition FRAME_OP_TEXT : Z := 1.      (* 0x01 *)
Definition FRAME_OP_BINARY : Z := 2.    (* 0x02 *)
Definition FRAME_OP_PING : Z := 9.      (* 0x09 *)
Definition FRAME_OP_PONG : Z := 10.     (* 0x0a *)
Definition FRAME_OP_BITMASK : Z := 15.  (* 0x0f *)
(* FRAME_TEXT = FRAME_FLAG_FIN | FRAME_OP_TEXT, the default [flags] *)
Definition FRAME_TEXT : Z := Z.lor FRAME_FLAG_FIN FRAME_OP_TEXT.
End WebSocket.
Import WebSocket.

(** ** The socket underneath *)

(** What the wrapper calls on its base class.  [buffer] is the content of
  the caller's [char*] area; [ws_receiveFrame] gets the area, its capacity
  and the current value of the [int& flags] argument and gives back the
  byte count, the area as it left it and the new value of [flags]. *)
Class Transport (T : Type) := {
ws_poll : Z -> T -> bool * T;
ws_receiveFrame : list byte -> Z -> Z -> T -> (Z * list byte * Z) * T;
ws_sendFrame : list byte -> Z -> Z -> T -> Z * T
}.

Inductive mutex := MutexRead | MutexWrite.

Definition mutex_eqb (a b : mutex) : bool :=
match a, b with
| MutexRead, MutexRead | MutexWrite, MutexWrite => true
| _, _ => false
end.

(** One entry per call, in program order. *)
Inductive event :=
| EvSleep                                   (* std::this_thread::sleep_for *)
| EvPoll (readable : bool)                  (* poll(waitTime, SELECT_READ) *)
| EvLock (m : mutex)                        (* unique_lock constructor *)
| EvUnlock (m : mutex)                      (* unlock() or owning destructor *)
| EvRecv (buffer : list byte) (n flags : Z) (* WebSocket::receiveFrame returned *)
| EvSend (buffer : list byte) (length flags : Z) (ret : Z).
                                          (* WebSocket::sendFrame returned *)

Record world (T : Type) := World { sock : T; trace : list event }.
Arguments World {T} _ _.
Arguments sock {T} _.
Arguments trace {T} _.

(** std::to_string(int): decimal digits, a leading minus for negatives. *)
Definition to_string (z : Z) : string := NilZero.string_of_int (Z.to_int z).

Section Wrapper.

Context {T : Type} `{Transport T}.

(** Constants of Common.hpp and config.h, which the header includes. *)
Variable LARGE_MESSAGE_SIZE : Z.
Variable POLL_TIMEOUT_MS : Z.
Variable ENABLE_DEBUG : bool.

Definition emit (e : event) (w : world T) : world T :=
  World (sock w) (trace w ++ [e]).

Definition lock (m : mutex) (w : world T) : world T := emit (EvLock m) w.
Definition unlock (m : mutex) (w : world T) : world T := emit (EvUnlock m) w.

Definition poll (timeout : Z) (w : world T) : bool * world T :=
  let (r, s) := ws_poll timeout (sock w) in
  (r, emit (EvPoll r) (World s (trace w))).

Definition base_receiveFrame (buffer : list byte) (length flags : Z) (w : world T)
  : Z * list byte * Z * world T :=
  let '(n, buffer', flags', s) := ws_receiveFrame buffer length flags (sock w) in
  (n, buffer', flags', emit (EvRecv buffer' n flags') (World s (trace w))).

Definition base_sendFrame (buffer : list byte) (length flags : Z) (w : world T)
  : Z * world T :=
  let (r, s) := ws_sendFrame buffer length flags (sock w) in
  (r, emit (EvSend buffer length flags r) (World s (trace w))).

(** #if ENABLE_DEBUG ... sleep_for(getWebSocketDelay()) ... #endif *)
Definition debug_delay (w : world T) : world T :=
  if ENABLE_DEBUG then emit EvSleep w else w.

(** static const Poco::Timespan waitTime(POLL_TIMEOUT_MS * 1000); *)
Definition waitTime : Z := POLL_TIMEOUT_MS * 1000.

Definition opcode (flags : Z) : Z := Z.land flags FRAME_OP_BITMASK.

(** The [while] loop of receiveFrame.  One unit of fuel pays for one
    evaluation of the loop condition; the result is [None] when the fuel
    runs out with the loop still going, and the world reached is given
    back in either case.  The tuple is (return value, buffer, flags,
    world). *)
Fixpoint receiveFrame_loop (fuel : nat) (buffer : list byte) (length flags : Z)
         (w : world T) : option Z * list byte * Z * world T :=
  match fuel with
  | O => (None, buffer, flags, w)
  | S fuel' =>
    let (ready, w) := poll waitTime w in
    if ready then
      let w := lock MutexRead w in
      let '(n, buffer, flags, w) := base_receiveFrame buffer length flags w in
      let w := unlock MutexRead w in
      if opcode flags =? FRAME_OP_PING then
        (* Echo back the ping message. *)
        let w := lock MutexWrite w in
        let (r, w) := base_sendFrame buffer n (Z.lor FRAME_FLAG_FIN FRAME_OP_PONG) w in
        if negb (r =? n) then (Some (-1), buffer, flags, unlock MutexWrite w)
        else receiveFrame_loop fuel' buffer length flags (unlock MutexWrite w)
      else if opcode flags =? FRAME_OP_PONG then
        (* In case we do send pings in the future. *)
        receiveFrame_loop fuel' buffer length flags w
      else (Some n, buffer, flags, w)
    else
      (* Not ready for read. *)
      (Some (-1), buffer, flags, w)
  end.

Definition receiveFrame (fuel : nat) (buffer : list byte) (length flags : Z)
           (w : world T) : option Z * list byte * Z * world T :=
  receiveFrame_loop fuel buffer length flags (debug_delay w).

Definition nextmessage (length : Z) : string :=
  String.append "nextmessage: size=" (to_string length).

Definition sendFrame (buffer : list byte) (length flags : Z) (w : world T)
  : Z * world T :=
  let w := debug_delay w in
  let w := lock MutexWrite w in
  let (announced, w) :=
    if length >=? LARGE_MESSAGE_SIZE then
      let size := Z.of_nat (String.length (nextmessage length)) in
      let (r, w) :=
        base_sendFrame (list_byte_of_string (nextmessage length)) size FRAME_TEXT w in
      (r =? size, w)
    else (true, w) in
  if announced then
    let (result, w) := base_sendFrame buffer length flags w in
    let w := unlock MutexWrite w in
    (result, w)
  else
    (* Failed to send long message preample: the lock's destructor runs. *)
    (-1, unlock MutexWrite w).

End Wrapper.

Arguments receiveFrame_loop {T _} POLL_TIMEOUT_MS fuel buffer length flags w.
Arguments receiveFrame {T _} POLL_TIMEOUT_MS ENABLE_DEBUG fuel buffer length flags w.
Arguments sendFrame {T _} LARGE_MESSAGE_SIZE ENABLE_DEBUG buffer length flags w.

(** ** Reading a trace *)

(** The frame writes of a trace: buffer, length, flags and the count the
    socket reported. *)
Fixpoint sent (tr : list event) : list (list byte * Z * Z * Z) :=
  match tr with
  | [] => []
  | EvSend b l f r :: tr' => (b, l, f, r) :: sent tr'
  | _ :: tr' => sent tr'
  end.

(** The same without the reported count: what was asked of the socket. *)
Definition send_calls (tr : list event) : list (list byte * Z * Z) :=
  map (fun c => let '(b, l, f, _) := c in (b, l, f)) (sent tr).

Definition pong_flags : Z := Z.lor FRAME_FLAG_FIN FRAME_OP_PONG.

(** The echo each PING read of a trace calls for. *)
Fixpoint pongs_owed (tr : list event) : list (list byte * Z * Z) :=
  match tr with
  | [] => []
  | EvRecv b n f :: tr' =>
    if opcode f =? FRAME_OP_PING then (b, n, pong_flags) :: pongs_owed tr'
    else pongs_owed tr'
  | _ :: tr' => pongs_owed tr'
  end.

(** The mutexes a thread holds after an event, given those held before. *)
Fixpoint release (m : mutex) (held : list mutex) : list mutex :=
  match held with
  | [] => []
  | m' :: held' => if mutex_eqb m m' then held' else m' :: release m held'
  end.

Definition step_held (held : list mutex) (e : event) : list mutex :=
  match e with
  | EvLock m => m :: held
  | EvUnlock m => release m held
  | _ => held
  end.

Definition held_after (held : list mutex) (tr : list event) : list mutex :=
  fold_left step_held tr held.

(** Every acquisition is made with no mutex held. *)
Fixpoint unnested (held : list mutex) (tr : list event) : bool :=
  match tr with
  | [] => true
  | e :: tr' =>
    match e, held with
    | EvLock _, _ :: _ => false
    | _, _ => unnested (step_held held e) tr'
    end
  end.

(** Every poll and every sleep is made with no mutex held. *)
Fixpoint waits_unlocked (held : list mutex) (tr : list event) : bool :=
  match tr with
  | [] => true
  | e :: tr' =>
    match e, held with
    | (EvPoll _ | EvSleep), _ :: _ => false
    | _, _ => waits_unlocked (step_held held e) tr'
    end
  end.

Definition is_io (e : event) : bool :=
  match e with
  | EvRecv _ _ _ | EvSend _ _ _ _ => true
  | _ => false
  end.

(** The critical sections of a trace in which acquisitions are not nested:
    for each one, the mutex and the number of frame reads and writes made
    between its acquisition and its release.  [cur] is the section that is
    open where the trace starts. *)
Fixpoint sections (cur : option (mutex * nat)) (tr : list event)
  : list (mutex * nat) :=
  match tr with
  | [] => match cur with Some c => [c] | None => [] end
  | EvLock m :: tr' =>
    match cur with
    | Some c => c :: sections (Some (m, O)) tr'
    | None => sections (Some (m, O)) tr'
    end
  | EvUnlock _ :: tr' =>
    match cur with
    | Some c => c :: sections None tr'
    | None => sections None tr'
    end
  | e :: tr' =>
    match cur with
    | Some (m, k) => sections (Some (m, if is_io e then S k else k)) tr'
    | None => sections None tr'
    end
  end.

(** ** The locking discipline, as properties of a trace *)

(** At no point of the trace are both mutexes held. *)
Definition never_both (tr : list event) : Prop :=
  forall pre suf, tr = pre ++ suf ->
    ~ (In MutexRead (held_after [] pre) /\ In MutexWrite (held_after [] pre)).

(** Every acquisition in the trace is made with no mutex held. *)
Definition acquired_alone (tr : list event) : Prop :=
  forall pre m suf, tr = pre ++ EvLock m :: suf -> held_after [] pre = [].



(** The number of polls in a trace. *)
Fixpoint polls_made (tr : list event) : nat :=
  match tr with
  | [] => O
  | EvPoll _ :: tr' => S (polls_made tr')
  | _ :: tr' => polls_made tr'
  end.

(** ** Two sockets to run the wrapper on *)

(** A scripted socket: the answers of the successive polls, the frames the
    successive reads deliver (count, flags, payload) and, for the successive
    writes, the count to report ([None]: the length asked for).  When a list
    is used up, a poll times out, a read gives the 0 bytes and 0 flags of a
    closed connection and a write is complete. *)
Record script := Script {
  polls : list bool;
  frames : list (Z * Z * list byte);
  reports : list (option Z)
}.

(** A payload laid over the start of the caller's area. *)
Definition overlay (data area : list byte) : list byte :=
  data ++ skipn (List.length data) area.

#[export] Instance script_transport : Transport script := {
  ws_poll _ s :=
    match polls s with
    | [] => (false, s)
    | p :: ps => (p, Script ps (frames s) (reports s))
    end;
  ws_receiveFrame buffer _ _ s :=
    match frames s with
    | [] => ((0, buffer, 0), s)
    | (n, fl, data) :: fs => ((n, overlay data buffer, fl), Script (polls s) fs (reports s))
    end;
  ws_sendFrame _ length _ s :=
    match reports s with
    | [] => (length, s)
    | r :: rs =>
      (match r with Some k => k | None => length end, Script (polls s) (frames s) rs)
    end
}.

(** A steady socket: always readable, every read delivers the same frame,
    every write is complete and is kept, in order, in [written]. *)
Record steady := Steady {
  frame : Z * Z * list byte;
  written : list (list byte * Z * Z)
}.

#[export] Instance steady_transport : Transport steady := {
  ws_poll _ s := (true, s);
  ws_receiveFrame buffer _ _ s :=
    let '(n, fl, data) := frame s in ((n, overlay data buffer, fl), s);
  ws_sendFrame buffer length flags s :=
    (length, Steady (frame s) (written s ++ [(buffer, length, flags)]))
}.

Definition bytes (s : string) : list byte := list_byte_of_string s.

(** ** The shape of a run of the receive loop *)

(** The events of one pass that finds the socket readable, up to the
    release of the read mutex, and those of a PING echo. *)
Definition read_block (b : list byte) (n f : Z) : list event :=
  [EvPoll true; EvLock MutexRead; EvRecv b n f; EvUnlock MutexRead].

Definition echo_block (b : list byte) (n r : Z) : list event :=
  [EvLock MutexWrite; EvSend b n pong_flags r; EvUnlock MutexWrite].

(** [loop_trace b f evs res b' f']: from buffer [b] and flags [f] the loop
    may emit [evs] and stop with [res], buffer [b'] and flags [f']. *)
Inductive loop_trace
  : list byte -> Z -> list event -> option Z -> list byte -> Z -> Prop :=
| LoopFuel b f :
    loop_trace b f [] None b f
| LoopTimeout b f :
    loop_trace b f [EvPoll false] (Some (-1)) b f
| LoopData b f b1 n f1 :
    opcode f1 <> FRAME_OP_PING -> opcode f1 <> FRAME_OP_PONG ->
    loop_trace b f (read_block b1 n f1) (Some n) b1 f1
| LoopPingFail b f b1 n f1 r :
    opcode f1 = FRAME_OP_PING -> r <> n ->
    loop_trace b f (read_block b1 n f1 ++ echo_block b1 n r) (Some (-1)) b1 f1
| LoopPing b f b1 n f1 evs res b' f' :
    opcode f1 = FRAME_OP_PING ->
    loop_trace b1 f1 evs res b' f' ->
    loop_trace b f (read_block b1 n f1 ++ echo_block b1 n n ++ evs) res b' f'
| LoopPong b f b1 n f1 evs res b' f' :
    opcode f1 = FRAME_OP_PONG ->
    loop_trace b1 f1 evs res b' f' ->
    loop_trace b f (read_block b1 n f1 ++ evs) res b' f'.

(** A property of every non-empty suffix of a trace. *)
Fixpoint every_suffix (P : list event -> Prop) (tr : list event) : Prop :=
  match tr with
  | [] => True
  | e :: tr' => P (e :: tr') /\ every_suffix P tr'
  end.

(** What comes where the loop goes round: the next poll, or nothing when
    the run was cut there for want of fuel. *)
Definition polls_next (res : option Z) (tl : list event) : Prop :=
  match tl with
  | [] => res = None
  | e :: _ => exists readable, e = EvPoll readable
  end.

(** How the frame read at the head of a suffix is dealt with, in a run that
    ends with [res], [b'] and [f']. *)
Definition frame_handled (res : option Z) (b' : list byte) (f' : Z)
           (suf : list event) : Prop :=
  match suf with
  | EvRecv b n f :: tl =>
    (opcode f = FRAME_OP_PING ->
     exists r tl',
       tl = EvUnlock MutexRead :: echo_block b n r ++ tl' /\
       (r <> n -> tl' = [] /\ res = Some (-1)) /\
       (r = n -> polls_next res tl'))
    /\ (opcode f = FRAME_OP_PONG ->
        exists tl', tl = EvUnlock MutexRead :: tl' /\ polls_next res tl')
    /\ (opcode f <> FRAME_OP_PING -> opcode f <> FRAME_OP_PONG ->
        tl = [EvUnlock MutexRead] /\ res = Some n /\ b' = b /\ f' = f)
  | _ => True
  end.

(** Why a run that returned did so: the last thing it saw. *)
Inductive exit_cause (tr : list event) (r : Z) : Prop :=
| ExitTimeout pre :
    tr = pre ++ [EvPoll false] -> r = -1 -> exit_cause tr r
| ExitData pre b f :
    tr = pre ++ [EvRecv b r f; EvUnlock MutexRead] ->
    opcode f <> FRAME_OP_PING -> opcode f <> FRAME_OP_PONG -> exit_cause tr r
| ExitEchoFailed pre b n f q :
    tr = pre ++ EvRecv b n f :: EvUnlock MutexRead :: echo_block b n q ->
    opcode f = FRAME_OP_PING -> q <> n -> r = -1 -> exit_cause tr r.

(** The events of the debug delay at the start of either function. *)
Definition delay_events (dbg : bool) : list event :=
  if dbg then [EvSleep] else [].

(** The preamble of a large message, as handed to the socket:
    nextmessage.data() and nextmessage.size(). *)
Definition preamble_text (length : Z) : list byte :=
  list_byte_of_string (nextmessage length).

Definition preamble_size (length : Z) : Z :=
  Z.of_nat (String.length (nextmessage length)).

(** ** Concrete runs *)

(** The area the caller hands to receiveFrame in the runs below. *)
Definition area16 : list byte := repeat "000"%byte 16.

(** A PING frame "ABCD", then a TEXT frame of ten bytes. *)
Definition ping_then_text : script :=
  Script [true; true]
         [(4, 137, bytes "ABCD"); (10, 129, bytes "0123456789")] [].

Definition ping_then_text_run : option Z * list byte * Z * world script :=
  Eval vm_compute in
    receiveFrame 5000 false 8 area16 16 0 (World ping_then_text []).

(** A socket that takes every write whole, with nothing written yet. *)
Definition sink : steady := Steady (0, 0, []) [].

(** A socket that reports 3 bytes for the first write. *)
Definition short_first_write : script := Script [] [] [Some 3].

(** A socket that takes the first write whole and reports 2 bytes for the
    second. *)
Definition short_second_write : script := Script [] [] [None; Some 2].


(** A PING frame with no payload, then a TEXT frame "hello". *)
Definition empty_ping_then_text : script :=
  Script [true; true] [(0, 137, []); (5, 129, bytes "hello")] [].

Definition empty_ping_run : option Z * list byte * Z * world script :=
  Eval vm_compute in
    receiveFrame 5000 false 8 area16 16 0 (World empty_ping_then_text []).

Definition silent : script := Script [] [] [].

(** sendFrame of the five bytes "hello" with LARGE_MESSAGE_SIZE = 4, on a
    socket that takes every write whole. *)
Definition hello_run : Z * world steady :=
  Eval vm_compute in
    sendFrame 4 false (bytes "hello") 5 FRAME_TEXT (World sink []).

(** A socket on which every read delivers a PONG frame "abc", and one on
    which every read delivers a PING frame "abc". *)
Definition pong_forever : steady := Steady (3, 138, bytes "abc") [].
Definition ping_forever : steady := Steady (3, 137, bytes "abc") [].

(** ** More readings of a trace *)


Definition count_events (p : event -> bool) (tr : list event) : nat :=
  List.length (filter p tr).

Definition is_poll_readable (e : event) : bool :=
  match e with EvPoll true => true | _ => false end.

Definition is_recv (e : event) : bool :=
  match e with EvRecv _ _ _ => true | _ => false end.

Definition is_ping_recv (e : event) : bool :=
  match e with
  | EvRecv _ _ f => opcode f =? FRAME_OP_PING
  | _ => false
  end.

Definition is_send (e : event) : bool :=
  match e with EvSend _ _ _ _ => true | _ => false end.

Definition is_lock (m : mutex) (e : event) : bool :=
  match e with EvLock m' => mutex_eqb m m' | _ => false end.

(** ** The debug delay *)

(** unsigned long, on the LP64 platforms the daemon is built for, and the
    signed 64-bit count of std::chrono::milliseconds. *)
Definition ULONG_MODULUS : Z := 2 ^ 64.

Definition to_ulong (z : Z) : Z := z mod ULONG_MODULUS.

Definition to_rep (u : Z) : Z :=
  if u <? 2 ^ 63 then u else u - ULONG_MODULUS.

Section Delay.

(** std::getenv, and std::stoul on its result ([None]: it throws). *)
Variable getenv : string -> option string.
Variable stoul : string -> option Z.

(** One of the two [if (std::getenv(name)) x = std::stoul(std::getenv(name))]
    of getWebSocketDelay, from the initial value 0: [None] when stoul
    throws. *)
Definition env_ulong (name : string) : option Z :=
  match getenv name with
  | Some text => stoul text
  | None => Some 0
  end.

(** getWebSocketDelay: the number of milliseconds, [None] when a std::stoul
    throws.  [rand] is what std::rand() gives if it is called. *)
Definition getWebSocketDelay (rand : Z) : option Z :=
  match env_ulong "LOOL_WS_DELAY" with
  | None => None
  | Some baseDelay =>
    match env_ulong "LOOL_WS_JITTER" with
    | None => None
    | Some jitter =>
      Some (to_rep (to_ulong
                      (baseDelay
                       + (if 0 <? jitter then to_ulong rand mod jitter else 0))))
    end
  end.

End Delay.

(** An environment with a delay of 100 ms and a jitter of 50 ms, one with
    neither variable set. *)
Definition env_100_50 (name : string) : option string :=
  if String.eqb name "LOOL_WS_DELAY" then Some "100"%string
  else if String.eqb name "LOOL_WS_JITTER" then Some "50"%string
  else None.


(** std::stoul with its default base 10, as strtoul reads a number: blanks
    are skipped, one sign may follow, then the longest run of decimal
    digits is taken and what comes after it is ignored; with no digit
    std::invalid_argument is thrown, with a value above ULONG_MAX
    std::out_of_range ([None] in both cases); after a minus sign the value
    is negated as an unsigned long. *)
Definition isspace (c : ascii) : bool :=
  let n := nat_of_ascii c in
  Nat.eqb n 32 || (Nat.leb 9 n && Nat.leb n 13).

Definition digit_value (c : ascii) : option Z :=
  let n := Z.of_nat (nat_of_ascii c) in
  if (48 <=? n) && (n <=? 57) then Some (n - 48) else None.

Fixpoint skip_blanks (text : string) : string :=
  match text with
  | String c rest => if isspace c then skip_blanks rest else text
  | EmptyString => text
  end.

Fixpoint digits_value (acc : option Z) (text : string) : option Z :=
  match text with
  | String c rest =>
    match digit_value c with
    | Some d =>
      digits_value
        (Some (10 * (match acc with Some v => v | None => 0 end) + d)) rest
    | None => acc
    end
  | EmptyString => acc
  end.

Definition std_stoul (text : string) : option Z :=
  let text := skip_blanks text in
  let (negative, text) :=
    match text with
    | String "-" rest => (true, rest)
    | String "+" rest => (false, rest)
    | _ => (false, text)
    end in
  match digits_value None text with
  | None => None
  | Some v =>
    if v <? ULONG_MODULUS
    then Some (if negative then to_ulong (- v) else v)
    else None
  end.

(** Three control frames, then a TEXT frame "hi". *)
Definition controls_then_text : script :=
  Script [true; true; true; true]
         [(0, 138, []); (2, 137, bytes "ab"); (1, 138, bytes "c");
          (2, 129, bytes "hi")] [].



(** A PONG frame, a PING frame "ABCD", then a TEXT frame of ten bytes, on
    a socket that keeps count of the writes it is yet to answer. *)
Definition pong_ping_text : script :=
  Script [true; true; true]
         [(0, 138, []); (4, 137, bytes "ABCD"); (10, 129, bytes "0123456789")]
         [None].

Definition pong_ping_text_run : option Z * list byte * Z * world script :=
  Eval vm_compute in
    receiveFrame 5000 false 8 area16 16 0 (World pong_ping_text []).

(** ** A trace against the socket *)

Section OnSocket.

Context {T : Type} `{Transport T}.
Variables (timeout length : Z).

(** [on_socket tr b f s s_end]: the polls, reads and writes of [tr] are, in
    this order, calls made on the socket from state [s], each with the
    answer the trace records for it, the reads with the capacity [length]
    and with the buffer and flags the read before left ([b] and [f] for the
    first); these calls are all that is done on the socket, which they
    leave in state [s_end]. *)
Fixpoint on_socket (tr : list event) (b : list byte) (f : Z) (s s_end : T)
  : Prop :=
  match tr with
  | [] => s_end = s
  | EvPoll r :: tr' =>
    exists s', ws_poll timeout s = (r, s') /\ on_socket tr' b f s' s_end
  | EvRecv b1 n f1 :: tr' =>
    exists s',
      ws_receiveFrame b length f s = (n, b1, f1, s')
      /\ on_socket tr' b1 f1 s' s_end
  | EvSend b0 l fl r :: tr' =>
    exists s', ws_sendFrame b0 l fl s = (r, s') /\ on_socket tr' b f s' s_end
  | _ :: tr' => on_socket tr' b f s s_end
  end.


End OnSocket.

(** ** Lemmas on traces *)

Lemma ping_neq_pong : FRAME_OP_PING <> FRAME_OP_PONG.
Proof. discriminate. Qed.

Lemma sent_app (a b : list event) : sent (a ++ b) = sent a ++ sent b.
Proof.
  induction a as [|e a IH]; simpl; [reflexivity|].
  destruct e; simpl; rewrite ?IH; reflexivity.
Qed.

Lemma send_calls_app (a b : list event) :
  send_calls (a ++ b) = send_calls a ++ send_calls b.
Proof. unfold send_calls. rewrite sent_app, map_app. reflexivity. Qed.

Lemma pongs_owed_app (a b : list event) :
  pongs_owed (a ++ b) = pongs_owed a ++ pongs_owed b.
Proof.
  induction a as [|e a IH]; simpl; [reflexivity|].
  destruct e; simpl; rewrite ?IH; try reflexivity.
  destruct (opcode flags =? FRAME_OP_PING); simpl; rewrite ?IH; reflexivity.
Qed.

Lemma every_suffix_app (P : list event -> Prop) (a b : list event) :
  every_suffix P (a ++ b) -> every_suffix P b.
Proof. induction a as [|e a IH]; simpl; [trivial | intros [_ Hs]; auto]. Qed.

Lemma every_suffix_split (P : list event -> Prop) (tr : list event) :
  every_suffix P tr -> forall pre e suf, tr = pre ++ e :: suf -> P (e :: suf).
Proof.
  intros Hs pre e suf ->. apply every_suffix_app in Hs. exact (proj1 Hs).
Qed.

(** ** From the code to the shape of its runs *)

Section Shape.

Context {T : Type} `{Transport T}.
Variable POLL_TIMEOUT_MS : Z.

Lemma receiveFrame_loop_shape (fuel : nat) :
  forall buffer length flags (w : world T) res b' f' w',
    receiveFrame_loop POLL_TIMEOUT_MS fuel buffer length flags w = (res, b', f', w') ->
    exists evs, trace w' = trace w ++ evs /\ loop_trace buffer flags evs res b' f'.
Proof.
  induction fuel as [|fuel IH]; intros buffer length flags w res b' f' w' Hrun.
  - simpl in Hrun. inversion Hrun; subst.
    exists []. rewrite app_nil_r. split; [reflexivity | constructor].
  - simpl in Hrun. unfold poll in Hrun.
    destruct (ws_poll (waitTime POLL_TIMEOUT_MS) (sock w)) as [ready s1].
    destruct ready.
    2:{ inversion Hrun; subst. exists [EvPoll false].
        split; [reflexivity | constructor]. }
    unfold base_receiveFrame, lock, unlock, emit in Hrun. simpl in Hrun.
    destruct (ws_receiveFrame buffer length flags s1) as [[[n b1] f1] s2].
    simpl in Hrun.
    destruct (opcode f1 =? FRAME_OP_PING) eqn:Hping.
    + apply Z.eqb_eq in Hping.
      unfold base_sendFrame in Hrun. simpl in Hrun.
      destruct (ws_sendFrame b1 n _ s2) as [r s3].
      simpl in Hrun.
      destruct (r =? n) eqn:Hr; simpl in Hrun.
      * apply Z.eqb_eq in Hr. subst r.
        apply IH in Hrun. destruct Hrun as (evs & Htr & Hlt). simpl in Htr.
        exists (read_block b1 n f1 ++ echo_block b1 n n ++ evs).
        split.
        -- rewrite Htr. repeat rewrite <- app_assoc. reflexivity.
        -- apply LoopPing; assumption.
      * apply Z.eqb_neq in Hr. inversion Hrun; subst.
        exists (read_block b' n f' ++ echo_block b' n r).
        split.
        -- simpl. repeat rewrite <- app_assoc. reflexivity.
        -- apply LoopPingFail; assumption.
    + apply Z.eqb_neq in Hping.
      destruct (opcode f1 =? FRAME_OP_PONG) eqn:Hpong.
      * apply Z.eqb_eq in Hpong.
        apply IH in Hrun. destruct Hrun as (evs & Htr & Hlt). simpl in Htr.
        exists (read_block b1 n f1 ++ evs).
        split.
        -- rewrite Htr. repeat rewrite <- app_assoc. reflexivity.
        -- apply LoopPong; assumption.
      * apply Z.eqb_neq in Hpong. inversion Hrun; subst.
        exists (read_block b' n f').
        split.
        -- simpl. repeat rewrite <- app_assoc. reflexivity.
        -- apply LoopData; assumption.
Qed.

(** The events of a whole call: the debug delay, then those of the loop. *)
Lemma receiveFrame_shape (dbg : bool) (fuel : nat) buffer length flags
      (w : world T) res b' f' w' :
  receiveFrame POLL_TIMEOUT_MS dbg fuel buffer length flags w = (res, b', f', w') ->
  exists evs,
    trace w' = trace w ++ delay_events dbg ++ evs /\
    loop_trace buffer flags evs res b' f'.
Proof.
  unfold receiveFrame. intros Hrun.
  apply receiveFrame_loop_shape in Hrun. destruct Hrun as (evs & Htr & Hlt).
  exists evs. split; [|exact Hlt].
  rewrite Htr. unfold debug_delay, delay_events, emit. destruct dbg; simpl.
  - rewrite <- app_assoc. reflexivity.
  - reflexivity.
Qed.

End Shape.

Lemma polls_made_blocks (a b : list event) :
  polls_made (a ++ b) = (polls_made a + polls_made b)%nat.
Proof.
  induction a as [|e a IH]; simpl; [reflexivity|].
  destruct e; simpl; rewrite IH; reflexivity.
Qed.

Section AgainstSocket.

Context {T : Type} `{Transport T}.
Variable POLL_TIMEOUT_MS : Z.

(** Every event of a run of the loop is a call made on the socket, and a
    run that has not returned has used all its fuel. *)
Lemma receiveFrame_loop_on_socket (fuel : nat) :
  forall buffer length flags (w : world T) res b' f' w',
    receiveFrame_loop POLL_TIMEOUT_MS fuel buffer length flags w = (res, b', f', w') ->
    exists evs,
      trace w' = trace w ++ evs
      /\ on_socket (waitTime POLL_TIMEOUT_MS) length evs buffer flags
                   (sock w) (sock w')
      /\ (res = None -> polls_made evs = fuel).
Proof.
  induction fuel as [|fuel IH]; intros buffer length flags w res b' f' w' Hrun.
  - simpl in Hrun. inversion Hrun; subst.
    exists []. rewrite app_nil_r. repeat split.
  - cbn [receiveFrame_loop] in Hrun. unfold poll in Hrun.
    destruct (ws_poll (waitTime POLL_TIMEOUT_MS) (sock w)) as [ready s1] eqn:Epoll.
    destruct ready.
    2:{ inversion Hrun; subst. exists [EvPoll false].
        split; [reflexivity | split; [|discriminate]].
        simpl. exists s1. split; [exact Epoll | reflexivity]. }
    unfold base_receiveFrame, lock, unlock, emit in Hrun. cbn [sock trace] in Hrun.
    destruct (ws_receiveFrame buffer length flags s1) as [[[n b1] f1] s2] eqn:Erecv.
    cbn [sock trace] in Hrun.
    destruct (opcode f1 =? FRAME_OP_PING) eqn:Hping.
    + unfold base_sendFrame, emit in Hrun. cbn [sock trace] in Hrun.
      change (Z.lor FRAME_FLAG_FIN FRAME_OP_PONG) with pong_flags in Hrun.
      destruct (ws_sendFrame b1 n pong_flags s2) as [r s3] eqn:Esend.
      cbn [sock trace] in Hrun.
      destruct (r =? n) eqn:Hr; cbn [negb] in Hrun.
      * apply Z.eqb_eq in Hr. subst r.
        apply IH in Hrun. destruct Hrun as (evs & Htr & Hon & Hfuel).
        cbn [sock trace] in Htr, Hon.
        exists (read_block b1 n f1 ++ echo_block b1 n n ++ evs).
        split; [|split].
        -- rewrite Htr. repeat rewrite <- app_assoc. reflexivity.
        -- simpl. exists s1. split; [exact Epoll|].
           exists s2. split; [exact Erecv|].
           exists s3. split; [exact Esend | exact Hon].
        -- intros Hnone. rewrite !polls_made_blocks, (Hfuel Hnone). reflexivity.
      * inversion Hrun; subst.
        exists (read_block b' n f' ++ echo_block b' n r).
        split; [|split; [|discriminate]].
        -- simpl. repeat rewrite <- app_assoc. reflexivity.
        -- simpl. exists s1. split; [exact Epoll|].
           exists s2. split; [exact Erecv|].
           exists s3. split; [exact Esend | reflexivity].
    + destruct (opcode f1 =? FRAME_OP_PONG) eqn:Hpong.
      * apply IH in Hrun. destruct Hrun as (evs & Htr & Hon & Hfuel).
        cbn [sock trace] in Htr, Hon.
        exists (read_block b1 n f1 ++ evs).
        split; [|split].
        -- rewrite Htr. repeat rewrite <- app_assoc. reflexivity.
        -- simpl. exists s1. split; [exact Epoll|].
           exists s2. split; [exact Erecv | exact Hon].
        -- intros Hnone. rewrite polls_made_blocks, (Hfuel Hnone). reflexivity.
      * inversion Hrun; subst.
        exists (read_block b' n f').
        split; [|split; [|discriminate]].
        -- simpl. repeat rewrite <- app_assoc. reflexivity.
        -- simpl. exists s1. split; [exact Epoll|].
           exists s2. split; [exact Erecv | reflexivity].
Qed.

Lemma receiveFrame_on_socket (dbg : bool) (fuel : nat) buffer length flags
      (w : world T) res b' f' w' evs :
  receiveFrame POLL_TIMEOUT_MS dbg fuel buffer length flags w = (res, b', f', w') ->
  trace w' = trace w ++ evs ->
  on_socket (waitTime POLL_TIMEOUT_MS) length evs buffer flags (sock w) (sock w')
  /\ (res = None -> polls_made evs = fuel).
Proof.
  unfold receiveFrame. intros Hrun Htr.
  apply receiveFrame_loop_on_socket in Hrun.
  destruct Hrun as (lp & Htr' & Hon & Hfuel).
  assert (Hevs : evs = delay_events dbg ++ lp).
  { rewrite Htr' in Htr. unfold debug_delay, delay_events, emit in *.
    destruct dbg; cbn [trace] in Htr.
    - rewrite <- app_assoc in Htr. apply app_inv_head in Htr. auto.
    - apply app_inv_head in Htr. auto. }
  subst evs.
  assert (Hs : sock (debug_delay dbg w) = sock w)
    by (unfold debug_delay; destruct dbg; reflexivity).
  rewrite Hs in Hon.
  split.
  - destruct dbg; exact Hon.
  - intros Hnone. rewrite polls_made_blocks, (Hfuel Hnone).
    destruct dbg; reflexivity.
Qed.

End AgainstSocket.

Lemma loop_trace_head b f evs res b' f' :
  loop_trace b f evs res b' f' -> polls_next res evs.
Proof. intros Hlt. destruct Hlt; simpl; eauto. Qed.

Lemma loop_trace_echoes b f evs res b' f' :
  loop_trace b f evs res b' f' -> send_calls evs = pongs_owed evs.
Proof.
  induction 1 as [ | | b f b1 n f1 Hn1 Hn2 | b f b1 n f1 r Hp Hr
                   | b f b1 n f1 evs res b' f' Hp Hlt IH
                   | b f b1 n f1 evs res b' f' Hp Hlt IH ];
    try reflexivity.
  - unfold send_calls. simpl.
    apply Z.eqb_neq in Hn1. rewrite Hn1. reflexivity.
  - unfold send_calls. simpl.
    apply Z.eqb_eq in Hp. rewrite Hp. reflexivity.
  - rewrite app_assoc, send_calls_app, pongs_owed_app, IH. f_equal.
    unfold send_calls. simpl.
    apply Z.eqb_eq in Hp. rewrite Hp. reflexivity.
  - rewrite send_calls_app, pongs_owed_app, IH. f_equal.
    unfold send_calls. simpl.
    assert (Hn : opcode f1 <> FRAME_OP_PING)
      by (rewrite Hp; intro E; symmetry in E; exact (ping_neq_pong E)).
    apply Z.eqb_neq in Hn. rewrite Hn. reflexivity.
Qed.

Ltac absurd_opcode :=
  match goal with
  | Hp : opcode ?f = FRAME_OP_PING, E : opcode ?f = FRAME_OP_PONG |- _ =>
    rewrite Hp in E; elim (ping_neq_pong E)
  | Hp : opcode ?f = ?x, E : opcode ?f <> ?x |- _ => elim (E Hp)
  end.

Lemma loop_trace_handled b f evs res b' f' :
  loop_trace b f evs res b' f' -> every_suffix (frame_handled res b' f') evs.
Proof.
  induction 1 as [ | | b f b1 n f1 Hn1 Hn2 | b f b1 n f1 r Hp Hr
                   | b f b1 n f1 evs res b' f' Hp Hlt IH
                   | b f b1 n f1 evs res b' f' Hp Hlt IH ];
    simpl; repeat split; trivial; intros; try absurd_opcode.
  - exists r, []. repeat split; trivial; contradiction.
  - exists n, evs. repeat split; try contradiction.
    intros _. eapply loop_trace_head; eassumption.
  - exists evs. split; [reflexivity|].
    eapply loop_trace_head; eassumption.
Qed.


Lemma every_suffix_delay (P : list event -> Prop) (dbg : bool) (evs : list event) :
  (forall tl, P (EvSleep :: tl)) ->
  every_suffix P evs ->
  every_suffix P (delay_events dbg ++ evs).
Proof. intros Hs He. destruct dbg; simpl; auto. Qed.

Lemma sent_delay (dbg : bool) : sent (delay_events dbg) = [].
Proof. destruct dbg; reflexivity. Qed.

Lemma pongs_owed_delay (dbg : bool) :
  pongs_owed (delay_events dbg) = [].
Proof. destruct dbg; reflexivity. Qed.

Lemma exit_cause_app (blk evs : list event) (r : Z) :
  exit_cause evs r -> exit_cause (blk ++ evs) r.
Proof.
  intros [pre -> Hr | pre b f -> Hn1 Hn2 | pre b n f q -> Hp Hq Hr].
  - apply ExitTimeout with (pre := blk ++ pre); [|exact Hr].
    rewrite app_assoc. reflexivity.
  - apply ExitData with (pre := blk ++ pre) (b := b) (f := f); try assumption.
    rewrite app_assoc. reflexivity.
  - apply ExitEchoFailed with (pre := blk ++ pre) (b := b) (n := n) (f := f)
                              (q := q); try assumption.
    rewrite app_assoc. reflexivity.
Qed.

Lemma loop_trace_exit b f evs r b' f' :
  loop_trace b f evs (Some r) b' f' -> exit_cause evs r.
Proof.
  intros Hlt. remember (Some r) as res eqn:Hres.
  induction Hlt as [ | | b f b1 n f1 Hn1 Hn2 | b f b1 n f1 q Hp Hq
                     | b f b1 n f1 evs res b' f' Hp Hlt IH
                     | b f b1 n f1 evs res b' f' Hp Hlt IH ].
  - discriminate.
  - inversion Hres; subst. apply ExitTimeout with (pre := []); reflexivity.
  - inversion Hres; subst.
    apply ExitData with (pre := [EvPoll true; EvLock MutexRead])
                        (b := b1) (f := f1); auto.
  - inversion Hres; subst.
    apply ExitEchoFailed with (pre := [EvPoll true; EvLock MutexRead])
                              (b := b1) (n := n) (f := f1) (q := q); auto.
  - rewrite app_assoc. apply exit_cause_app. auto.
  - apply exit_cause_app. auto.
Qed.



(** ** Control frames *)




(** ** The three ways through sendFrame *)

Section Send.

Context {T : Type} `{Transport T}.
Variable LARGE_MESSAGE_SIZE : Z.
Variable dbg : bool.
Variables (buffer : list byte) (length flags : Z) (w : world T).

Lemma debug_delay_trace : trace (debug_delay dbg w) = trace w ++ delay_events dbg.
Proof.
  unfold debug_delay, delay_events, emit. destruct dbg; simpl;
    [reflexivity | rewrite app_nil_r; reflexivity].
Qed.

Lemma debug_delay_sock : sock (debug_delay dbg w) = sock w.
Proof. unfold debug_delay. destruct dbg; reflexivity. Qed.

Lemma sendFrame_small r s :
  length < LARGE_MESSAGE_SIZE ->
  ws_sendFrame buffer length flags (sock w) = (r, s) ->
  sendFrame LARGE_MESSAGE_SIZE dbg buffer length flags w
  = (r, World s (trace w ++ delay_events dbg ++
                 [EvLock MutexWrite; EvSend buffer length flags r;
                  EvUnlock MutexWrite])).
Proof.
  intros Hlt Hw. unfold sendFrame.
  replace (length >=? LARGE_MESSAGE_SIZE) with false
    by (symmetry; rewrite Z.geb_leb; apply Z.leb_gt; exact Hlt).
  unfold base_sendFrame, lock, unlock, emit. cbn [sock trace].
  rewrite debug_delay_sock, Hw, debug_delay_trace. cbn [sock trace].
  repeat rewrite <- app_assoc. reflexivity.
Qed.

Lemma sendFrame_large s1 r s2 :
  LARGE_MESSAGE_SIZE <= length ->
  ws_sendFrame (preamble_text length) (preamble_size length) FRAME_TEXT (sock w) = (preamble_size length, s1) ->
  ws_sendFrame buffer length flags s1 = (r, s2) ->
  sendFrame LARGE_MESSAGE_SIZE dbg buffer length flags w
  = (r, World s2 (trace w ++ delay_events dbg ++
                  [EvLock MutexWrite; EvSend (preamble_text length) (preamble_size length) FRAME_TEXT
                          (preamble_size length);
                   EvSend buffer length flags r; EvUnlock MutexWrite])).
Proof.
  intros Hge Hpre Hw. unfold sendFrame.
  replace (length >=? LARGE_MESSAGE_SIZE) with true
    by (symmetry; rewrite Z.geb_leb; apply Z.leb_le; exact Hge).
  unfold base_sendFrame, lock, unlock, emit. cbn [sock trace].
  rewrite debug_delay_sock. unfold preamble_text, preamble_size in *. rewrite Hpre.
  rewrite Z.eqb_refl. cbn [sock trace]. rewrite Hw, debug_delay_trace. cbn [sock trace].
  repeat rewrite <- app_assoc. reflexivity.
Qed.

Lemma sendFrame_abort q s1 :
  LARGE_MESSAGE_SIZE <= length ->
  ws_sendFrame (preamble_text length) (preamble_size length) FRAME_TEXT (sock w) = (q, s1) ->
  q <> preamble_size length ->
  sendFrame LARGE_MESSAGE_SIZE dbg buffer length flags w
  = (-1, World s1 (trace w ++ delay_events dbg ++
                   [EvLock MutexWrite; EvSend (preamble_text length) (preamble_size length) FRAME_TEXT q;
                    EvUnlock MutexWrite])).
Proof.
  intros Hge Hpre Hq. unfold sendFrame.
  replace (length >=? LARGE_MESSAGE_SIZE) with true
    by (symmetry; rewrite Z.geb_leb; apply Z.leb_le; exact Hge).
  unfold base_sendFrame, lock, unlock, emit. cbn [sock trace].
  rewrite debug_delay_sock. unfold preamble_text, preamble_size in *. rewrite Hpre.
  apply Z.eqb_neq in Hq. rewrite Hq. cbn [sock trace]. rewrite debug_delay_trace.
  repeat rewrite <- app_assoc. reflexivity.
Qed.

End Send.

Lemma sendFrame_events {T : Type} `{Transport T} (LARGE_MESSAGE_SIZE : Z)
      (dbg : bool) (buffer : list byte) (length flags : Z) (w : world T)
      (r : Z) (w' : world T) (evs : list event) :
  sendFrame LARGE_MESSAGE_SIZE dbg buffer length flags w = (r, w') ->
  trace w' = trace w ++ evs ->
  (length < LARGE_MESSAGE_SIZE /\
   evs = delay_events dbg ++
         [EvLock MutexWrite; EvSend buffer length flags r; EvUnlock MutexWrite])
  \/ (LARGE_MESSAGE_SIZE <= length /\
      evs = delay_events dbg ++
            [EvLock MutexWrite;
             EvSend (preamble_text length) (preamble_size length) FRAME_TEXT
                    (preamble_size length);
             EvSend buffer length flags r; EvUnlock MutexWrite])
  \/ (LARGE_MESSAGE_SIZE <= length /\
      exists q, q <> preamble_size length /\ r = -1 /\
        evs = delay_events dbg ++
              [EvLock MutexWrite;
               EvSend (preamble_text length) (preamble_size length) FRAME_TEXT q;
               EvUnlock MutexWrite]).
Proof.
  intros Hrun Htr.
  destruct (Z_lt_le_dec length LARGE_MESSAGE_SIZE) as [Hlt | Hge].
  - left. split; [exact Hlt|].
    destruct (ws_sendFrame buffer length flags (sock w)) as [r0 s] eqn:Hw.
    rewrite (sendFrame_small _ _ _ _ _ _ _ _ Hlt Hw) in Hrun.
    inversion Hrun; subst. simpl in Htr.
    apply app_inv_head in Htr. symmetry. exact Htr.
  - right.
    destruct (ws_sendFrame (preamble_text length) (preamble_size length)
                           FRAME_TEXT (sock w)) as [q s1] eqn:Hpre.
    destruct (Z.eq_dec q (preamble_size length)) as [Hq | Hq].
    + left. split; [exact Hge|]. subst q.
      destruct (ws_sendFrame buffer length flags s1) as [r0 s2] eqn:Hw.
      rewrite (sendFrame_large _ _ _ _ _ _ _ _ _ Hge Hpre Hw) in Hrun.
      inversion Hrun; subst. simpl in Htr.
      apply app_inv_head in Htr. symmetry. exact Htr.
    + right. split; [exact Hge|]. exists q.
      rewrite (sendFrame_abort _ _ _ _ _ _ _ _ Hge Hpre Hq) in Hrun.
      inversion Hrun; subst. simpl in Htr.
      apply app_inv_head in Htr. repeat split; auto.
Qed.




Lemma sent_after_delay (dbg : bool) (evs : list event) :
  sent (delay_events dbg ++ evs) = sent evs.
Proof. rewrite sent_app, sent_delay. reflexivity. Qed.

(** ** The large-message preamble *)



(** C3.  In a call of sendFrame with [length] at least LARGE_MESSAGE_SIZE
    in which the socket reports, for the preamble, a count other than the
    preamble's size: sendFrame returns -1, the preamble is the only frame
    written, and the socket is left as the preamble's write left it. *)
Theorem sendFrame_preamble_failure {T : Type} `{Transport T}
        (LARGE_MESSAGE_SIZE : Z) (dbg : bool) (buffer : list byte)
        (length flags : Z) (w : world T) (r : Z) (w' : world T)
        (evs : list event) (q : Z) (s1 : T) :
  LARGE_MESSAGE_SIZE <= length ->
  ws_sendFrame (preamble_text length) (preamble_size length) FRAME_TEXT (sock w)
  = (q, s1) ->
  q <> preamble_size length ->
  sendFrame LARGE_MESSAGE_SIZE dbg buffer length flags w = (r, w') ->
  trace w' = trace w ++ evs ->
  r = -1
  /\ sent evs = [(preamble_text length, preamble_size length, FRAME_TEXT, q)]
  /\ sock w' = s1.
Proof.
  intros Hge Hpre Hq Hrun Htr.
  rewrite (sendFrame_abort _ _ _ _ _ _ _ _ Hge Hpre Hq) in Hrun.
  inversion Hrun; subst. simpl in Htr. apply app_inv_head in Htr. subst evs.
  rewrite sent_after_delay. repeat split; reflexivity.
Qed.

Lemma sendFrame_preamble_failure_witness :
  fst (sendFrame 4 true (bytes "hello") 5 FRAME_TEXT (World short_first_write []))
  = -1
  /\ sent (trace (snd (sendFrame 4 true (bytes "hello") 5 FRAME_TEXT
                                 (World short_first_write []))))
     = [(bytes "nextmessage: size=5", 19, FRAME_TEXT, 3)].
Proof.
  destruct (@sendFrame_preamble_failure script script_transport
              4 true (bytes "hello") 5 FRAME_TEXT (World short_first_write [])
              (-1) _ _ 3 (Script [] [] [])
              ltac:(lia) ltac:(reflexivity) ltac:(discriminate)
              ltac:(reflexivity) ltac:(reflexivity))
    as (Hr & Hsent & _).
  split; [reflexivity | exact Hsent].
Defined.

(** C4.  In a call of sendFrame that gets to the payload write, that is
    with [length] below LARGE_MESSAGE_SIZE or with the preamble reported
    written whole: the value returned is the count the socket reports for
    the write of [buffer], [length], [flags], whatever that count is; that
    write is made once and is the last thing done on the socket. *)
Theorem sendFrame_returns_payload_count {T : Type} `{Transport T}
        (LARGE_MESSAGE_SIZE : Z) (dbg : bool) (buffer : list byte)
        (length flags : Z) (w : world T) (r : Z) (w' : world T)
        (evs : list event) (s1 : T) :
  (length < LARGE_MESSAGE_SIZE /\ s1 = sock w)
  \/ (LARGE_MESSAGE_SIZE <= length /\
      ws_sendFrame (preamble_text length) (preamble_size length) FRAME_TEXT
                   (sock w) = (preamble_size length, s1)) ->
  sendFrame LARGE_MESSAGE_SIZE dbg buffer length flags w = (r, w') ->
  trace w' = trace w ++ evs ->
  r = fst (ws_sendFrame buffer length flags s1)
  /\ sock w' = snd (ws_sendFrame buffer length flags s1)
  /\ sent evs
     = (if length >=? LARGE_MESSAGE_SIZE
        then [(preamble_text length, preamble_size length, FRAME_TEXT,
               preamble_size length)]
        else [])
         ++ [(buffer, length, flags, r)].
Proof.
  intros Hreach Hrun Htr.
  destruct (ws_sendFrame buffer length flags s1) as [r0 s2] eqn:Hw.
  destruct Hreach as [[Hlt ->] | [Hge Hpre]].
  - rewrite (sendFrame_small _ _ _ _ _ _ _ _ Hlt Hw) in Hrun.
    inversion Hrun; subst. simpl in Htr. apply app_inv_head in Htr. subst evs.
    rewrite sent_after_delay.
    replace (length >=? LARGE_MESSAGE_SIZE) with false
      by (symmetry; rewrite Z.geb_leb; apply Z.leb_gt; exact Hlt).
    repeat split; reflexivity.
  - rewrite (sendFrame_large _ _ _ _ _ _ _ _ _ Hge Hpre Hw) in Hrun.
    inversion Hrun; subst. simpl in Htr. apply app_inv_head in Htr. subst evs.
    rewrite sent_after_delay.
    replace (length >=? LARGE_MESSAGE_SIZE) with true
      by (symmetry; rewrite Z.geb_leb; apply Z.leb_le; exact Hge).
    repeat split; reflexivity.
Qed.

Lemma sendFrame_returns_payload_count_witness :
  fst (sendFrame 4 false (bytes "hello") 5 FRAME_TEXT
                 (World short_second_write [])) = 2
  /\ sent (trace (snd (sendFrame 4 false (bytes "hello") 5 FRAME_TEXT
                                 (World short_second_write []))))
     = [(bytes "nextmessage: size=5", 19, FRAME_TEXT, 19);
        (bytes "hello", 5, FRAME_TEXT, 2)].
Proof.
  destruct (@sendFrame_returns_payload_count script script_transport
              4 false (bytes "hello") 5 FRAME_TEXT (World short_second_write [])
              2 (snd (sendFrame 4 false (bytes "hello") 5 FRAME_TEXT
                                (World short_second_write [])))
              (trace (snd (sendFrame 4 false (bytes "hello") 5 FRAME_TEXT
                                     (World short_second_write []))))
              (Script [] [] [Some 2]))
    as (Hr & _ & Hsent).
  - right. split; [lia | reflexivity].
  - reflexivity.
  - reflexivity.
  - split; [reflexivity | exact Hsent].
Defined.





(** ** Empty reads and timeouts *)




(** C6.  In a call of receiveFrame whose poll reports the socket not
    readable: the call returns -1 as an ordinary return value, the caller's
    buffer and flags are as they were, and apart from the debug delay the
    poll is all that was done: no mutex taken, nothing read or written. *)
Theorem receiveFrame_not_ready {T : Type} `{Transport T}
        (POLL_TIMEOUT_MS : Z) (dbg : bool) (fuel : nat)
        (buffer : list byte) (length flags : Z) (w : world T) :
  fst (ws_poll (waitTime POLL_TIMEOUT_MS) (sock w)) = false ->
  receiveFrame POLL_TIMEOUT_MS dbg (S fuel) buffer length flags w
  = (Some (-1), buffer, flags,
     World (snd (ws_poll (waitTime POLL_TIMEOUT_MS) (sock w)))
           (trace w ++ delay_events dbg ++ [EvPoll false])).
Proof.
  intros Hpoll. unfold receiveFrame. cbn [receiveFrame_loop]. unfold poll.
  rewrite debug_delay_sock, debug_delay_trace.
  destruct (ws_poll (waitTime POLL_TIMEOUT_MS) (sock w)) as [ready s].
  simpl in Hpoll. subst ready. unfold emit. cbn [sock trace fst snd].
  rewrite <- app_assoc. reflexivity.
Qed.

Lemma receiveFrame_not_ready_witness :
  receiveFrame 5000 false 1 area16 16 0 (World silent [])
  = (Some (-1), area16, 0, World silent [EvPoll false]).
Proof.
  exact (@receiveFrame_not_ready script script_transport
           5000 false 0 area16 16 0 (World silent []) eq_refl).
Defined.

(** ** The two mutexes *)

Lemma release_length (m : mutex) (h : list mutex) :
  (List.length (release m h) <= List.length h)%nat.
Proof.
  induction h as [|a h IH]; simpl; [lia|].
  destruct (mutex_eqb m a); simpl; lia.
Qed.

Lemma unnested_step (h : list mutex) (e : event) (tr : list event) :
  unnested h (e :: tr) = true ->
  (List.length h <= 1)%nat ->
  unnested (step_held h e) tr = true /\ (List.length (step_held h e) <= 1)%nat.
Proof.
  intros Hu Hl. destruct e; simpl in *; try (split; assumption).
  - destruct h; [split; [assumption | simpl; lia] | discriminate].
  - split; [assumption|]. pose proof (release_length m h). lia.
Qed.

Lemma unnested_sound (pre : list event) :
  forall h tr suf,
    unnested h tr = true -> (List.length h <= 1)%nat -> tr = pre ++ suf ->
    (List.length (held_after h pre) <= 1)%nat
    /\ (forall m suf', suf = EvLock m :: suf' -> held_after h pre = []).
Proof.
  induction pre as [|e pre IH]; intros h tr suf Hu Hl Htr.
  - simpl in Htr. subst tr. split; [exact Hl|].
    intros m suf' ->. simpl in Hu. destruct h; [reflexivity | discriminate].
  - simpl in Htr. subst tr.
    destruct (unnested_step _ _ _ Hu Hl) as [Hu' Hl'].
    exact (IH _ _ _ Hu' Hl' eq_refl).
Qed.

Lemma unnested_never_both (tr : list event) :
  unnested [] tr = true -> never_both tr /\ acquired_alone tr.
Proof.
  intros Hu. split.
  - intros pre suf Htr [Hr Hw].
    destruct (unnested_sound pre [] tr suf Hu (Nat.le_0_l _) Htr) as [Hl _].
    destruct (held_after [] pre) as [|a [|c h]]; simpl in *; try lia.
    destruct Hr as [Hr | []], Hw as [Hw | []]. congruence.
  - intros pre m suf Htr.
    destruct (unnested_sound pre [] tr _ Hu (Nat.le_0_l _) Htr) as [_ Ha].
    exact (Ha m suf eq_refl).
Qed.


Lemma loop_trace_locks b f evs res b' f' :
  loop_trace b f evs res b' f' ->
  unnested [] evs = true /\ waits_unlocked [] evs = true
  /\ Forall (fun c => snd c = 1%nat) (sections None evs).
Proof.
  induction 1 as [ | | b f b1 n f1 Hn1 Hn2 | b f b1 n f1 r Hp Hr
                   | b f b1 n f1 evs res b' f' Hp Hlt (IHu & IHw & IHs)
                   | b f b1 n f1 evs res b' f' Hp Hlt (IHu & IHw & IHs) ];
    simpl; repeat split; auto.
Qed.

Lemma sections_after_delay (dbg : bool) (evs : list event) :
  sections None (delay_events dbg ++ evs) = sections None evs.
Proof. destruct dbg; reflexivity. Qed.

Lemma unnested_after_delay (dbg : bool) (evs : list event) :
  unnested [] (delay_events dbg ++ evs) = unnested [] evs.
Proof. destruct dbg; reflexivity. Qed.

Lemma waits_unlocked_after_delay (dbg : bool) (evs : list event) :
  waits_unlocked [] (delay_events dbg ++ evs) = waits_unlocked [] evs.
Proof. destruct dbg; reflexivity. Qed.


Lemma receiveFrame_checks {T : Type} `{Transport T}
      (POLL_TIMEOUT_MS : Z) (dbg : bool) (fuel : nat)
      (buffer : list byte) (length flags : Z) (w : world T)
      (res : option Z) (b' : list byte) (f' : Z) (w' : world T)
      (evs : list event) :
  receiveFrame POLL_TIMEOUT_MS dbg fuel buffer length flags w = (res, b', f', w') ->
  trace w' = trace w ++ evs ->
  unnested [] evs = true /\ waits_unlocked [] evs = true
  /\ Forall (fun c => snd c = 1%nat) (sections None evs).
Proof.
  intros Hrun Htr.
  apply receiveFrame_shape in Hrun. destruct Hrun as (lp & Htr' & Hlt).
  rewrite Htr' in Htr. apply app_inv_head in Htr. subst evs.
  rewrite unnested_after_delay, waits_unlocked_after_delay,
    sections_after_delay.
  eapply loop_trace_locks; eassumption.
Qed.

Lemma sendFrame_checks {T : Type} `{Transport T} (LARGE_MESSAGE_SIZE : Z)
      (dbg : bool) (buffer : list byte) (length flags : Z) (w : world T)
      (r : Z) (w' : world T) (evs : list event) :
  sendFrame LARGE_MESSAGE_SIZE dbg buffer length flags w = (r, w') ->
  trace w' = trace w ++ evs ->
  unnested [] evs = true /\ waits_unlocked [] evs = true
  /\ sections None evs = [(MutexWrite, List.length (sent evs))]
  /\ (1 <= List.length (sent evs) <= 2)%nat
  /\ (length < LARGE_MESSAGE_SIZE -> List.length (sent evs) = 1%nat)
  /\ ~ In (EvLock MutexRead) evs.
Proof.
  intros Hrun Htr.
  destruct (sendFrame_events _ _ _ _ _ _ _ _ _ Hrun Htr)
    as [[Hlt ->] | [[Hge ->] | [Hge (q & Hq & Hr & ->)]]];
    rewrite unnested_after_delay, waits_unlocked_after_delay,
      sections_after_delay, sent_after_delay;
    cbn [unnested waits_unlocked sections sent step_held release mutex_eqb
         is_io List.length];
    (repeat split; try reflexivity; try lia);
    intros Hin; apply in_app_or in Hin; destruct Hin as [Hin | Hin];
      try (destruct dbg; simpl in Hin; intuition discriminate);
      simpl in Hin; intuition discriminate.
Qed.

(** C8.  In every run of receiveFrame, returned or still looping, and in
    every call of sendFrame: at no point are both mutexes held; every
    acquisition is made with no mutex held, so the read mutex has been
    released when the write mutex is taken for a PING echo, and the write
    mutex has been released when the read mutex is taken again; and
    sendFrame never takes the read mutex. *)
Theorem locks_never_held_together {T : Type} `{Transport T}
        (LARGE_MESSAGE_SIZE POLL_TIMEOUT_MS : Z) (dbg : bool) :
  (forall fuel buffer length flags (w : world T) res b' f' w' evs,
      receiveFrame POLL_TIMEOUT_MS dbg fuel buffer length flags w
      = (res, b', f', w') ->
      trace w' = trace w ++ evs ->
      never_both evs /\ acquired_alone evs
      /\ (forall pre suf, evs = pre ++ EvLock MutexWrite :: suf ->
                          ~ In MutexRead (held_after [] pre))
      /\ (forall pre suf, evs = pre ++ EvLock MutexRead :: suf ->
                          ~ In MutexWrite (held_after [] pre)))
  /\ (forall buffer length flags (w : world T) r w' evs,
         sendFrame LARGE_MESSAGE_SIZE dbg buffer length flags w = (r, w') ->
         trace w' = trace w ++ evs ->
         never_both evs /\ acquired_alone evs
         /\ ~ In (EvLock MutexRead) evs).
Proof.
  split.
  - intros fuel buffer length flags w res b' f' w' evs Hrun Htr.
    destruct (receiveFrame_checks _ _ _ _ _ _ _ _ _ _ _ _ Hrun Htr)
      as (Hu & _ & _).
    destruct (unnested_never_both _ Hu) as [Hnb Haa].
    repeat split; try assumption;
      intros pre suf Hsplit Hin; rewrite (Haa _ _ _ Hsplit) in Hin;
        exact Hin.
  - intros buffer length flags w r w' evs Hrun Htr.
    destruct (sendFrame_checks _ _ _ _ _ _ _ _ _ Hrun Htr)
      as (Hu & _ & _ & _ & _ & Hnr).
    destruct (unnested_never_both _ Hu) as [Hnb Haa].
    repeat split; assumption.
Qed.

Lemma locks_never_held_together_witness :
  (never_both (trace (snd ping_then_text_run))
   /\ acquired_alone (trace (snd ping_then_text_run)))
  /\ (never_both (trace (snd hello_run))
      /\ ~ In (EvLock MutexRead) (trace (snd hello_run))).
Proof.
  destruct (@locks_never_held_together steady steady_transport 4 5000 false)
    as [_ Hsend].
  destruct (@locks_never_held_together script script_transport 4 5000 false)
    as [Hrecv _].
  split.
  - destruct (Hrecv 8%nat area16 16 0 (World ping_then_text [])
                    (fst (fst (fst ping_then_text_run)))
                    (snd (fst (fst ping_then_text_run)))
                    (snd (fst ping_then_text_run))
                    (snd ping_then_text_run)
                    (trace (snd ping_then_text_run)))
      as (Hnb & Haa & _); [vm_compute; reflexivity | reflexivity |].
    split; assumption.
  - destruct (Hsend (bytes "hello") 5 FRAME_TEXT (World sink [])
                    (fst hello_run) (snd hello_run) (trace (snd hello_run)))
      as (Hnb & _ & Hnr); [vm_compute; reflexivity | reflexivity |].
    split; assumption.
Defined.




(** ** Termination *)

Lemma polls_made_app (a b : list event) :
  polls_made (a ++ b) = (polls_made a + polls_made b)%nat.
Proof.
  induction a as [|e a IH]; simpl; [reflexivity|].
  destruct e; simpl; rewrite IH; reflexivity.
Qed.

Section Forever.

Context {T : Type} `{Transport T}.
Variable POLL_TIMEOUT_MS : Z.

(** A set of socket states that is never left and from which the socket is
    always readable and every read delivers a PONG frame, or a PING frame
    whose echo the socket takes whole. *)
Variable Inv : T -> Prop.
Hypothesis always_readable :
  forall t, Inv t ->
    fst (ws_poll (waitTime POLL_TIMEOUT_MS) t) = true
    /\ Inv (snd (ws_poll (waitTime POLL_TIMEOUT_MS) t)).
Hypothesis always_control :
  forall t b l f, Inv t ->
    let '(n, b1, f1, t1) := ws_receiveFrame b l f t in
    (opcode f1 = FRAME_OP_PONG /\ Inv t1)
    \/ (opcode f1 = FRAME_OP_PING
        /\ fst (ws_sendFrame b1 n pong_flags t1) = n
        /\ Inv (snd (ws_sendFrame b1 n pong_flags t1))).

Lemma receiveFrame_loop_forever (fuel : nat) :
  forall buffer length flags (w : world T),
    Inv (sock w) ->
    exists b' f' w' evs,
      receiveFrame_loop POLL_TIMEOUT_MS fuel buffer length flags w
      = (None, b', f', w')
      /\ trace w' = trace w ++ evs /\ polls_made evs = fuel.
Proof.
  induction fuel as [|fuel IH]; intros buffer length flags w Hinv.
  - exists buffer, flags, w, []. rewrite app_nil_r. repeat split.
  - cbn [receiveFrame_loop]. unfold poll.
    destruct (always_readable _ Hinv) as [Hrd Hinv1].
    destruct (ws_poll (waitTime POLL_TIMEOUT_MS) (sock w)) as [ready s1].
    simpl in Hrd, Hinv1. subst ready.
    unfold base_receiveFrame, lock, unlock, emit. cbn [sock trace].
    pose proof (always_control s1 buffer length flags Hinv1) as Hctl.
    destruct (ws_receiveFrame buffer length flags s1) as [[[n b1] f1] s2].
    cbn [sock trace].
    destruct Hctl as [[Hpong Hinv2] | (Hping & Hecho & Hinv3)].
    + assert (Hnp : (opcode f1 =? FRAME_OP_PING) = false)
        by (apply Z.eqb_neq; rewrite Hpong; intro E; symmetry in E;
            exact (ping_neq_pong E)).
      rewrite Hnp. apply Z.eqb_eq in Hpong. rewrite Hpong.
      match goal with
      | |- context [receiveFrame_loop _ fuel b1 length f1 ?w1] =>
        destruct (IH b1 length f1 w1 Hinv2) as (b' & f' & w' & evs & Hrun & Htr & Hn)
      end.
      exists b', f', w', (read_block b1 n f1 ++ evs).
      rewrite Hrun, Htr. cbn [trace]. repeat rewrite <- app_assoc.
      repeat split. rewrite !polls_made_app, Hn. reflexivity.
    + apply Z.eqb_eq in Hping. rewrite Hping.
      unfold base_sendFrame, emit. cbn [sock trace].
      change (Z.lor FRAME_FLAG_FIN FRAME_OP_PONG) with pong_flags.
      destruct (ws_sendFrame b1 n pong_flags s2) as [r s3].
      simpl in Hecho, Hinv3. subst r. rewrite Z.eqb_refl. cbn [negb sock trace].
      match goal with
      | |- context [receiveFrame_loop _ fuel b1 length f1 ?w1] =>
        destruct (IH b1 length f1 w1 Hinv3) as (b' & f' & w' & evs & Hrun & Htr & Hn)
      end.
      exists b', f', w', (read_block b1 n f1 ++ echo_block b1 n n ++ evs).
      rewrite Hrun, Htr. cbn [trace]. repeat rewrite <- app_assoc.
      repeat split. rewrite !polls_made_app, Hn. reflexivity.
Qed.

End Forever.

Lemma receiveFrame_loop_more_fuel {T : Type} `{Transport T}
      (POLL_TIMEOUT_MS : Z) (fuel : nat) :
  forall buffer length flags (w : world T) r b' f' w',
    receiveFrame_loop POLL_TIMEOUT_MS fuel buffer length flags w
    = (Some r, b', f', w') ->
    forall k,
      receiveFrame_loop POLL_TIMEOUT_MS (fuel + k) buffer length flags w
      = (Some r, b', f', w').
Proof.
  induction fuel as [|fuel IH]; intros buffer length flags w r b' f' w' Hrun k.
  - discriminate Hrun.
  - cbn [receiveFrame_loop Nat.add] in *.
    destruct (poll (waitTime POLL_TIMEOUT_MS) w) as [ready w1].
    destruct ready; [|exact Hrun].
    destruct (base_receiveFrame buffer length flags (lock MutexRead w1))
      as [[[n b1] f1] w2].
    destruct (opcode f1 =? FRAME_OP_PING).
    + destruct (base_sendFrame b1 n (Z.lor FRAME_FLAG_FIN FRAME_OP_PONG)
                               (lock MutexWrite (unlock MutexRead w2)))
        as [q w3].
      destruct (negb (q =? n)); [exact Hrun | apply IH; exact Hrun].
    + destruct (opcode f1 =? FRAME_OP_PONG); [apply IH; exact Hrun | exact Hrun].
Qed.

(** C10.  receiveFrame returns only when a poll reports the socket not
    readable, when a read delivers a frame whose opcode is neither PING nor
    PONG, or when a PING echo reports a count other than the one asked for:
    a run that returned ends in one of these three, and returns the same
    with any more fuel.  On a socket that is always readable and on which
    every read delivers a PONG frame, or a PING frame whose echo is taken
    whole, receiveFrame never returns: whatever the fuel, the run uses all
    of it, one poll per unit, and is still looping. *)
Theorem receiveFrame_termination {T : Type} `{Transport T}
        (POLL_TIMEOUT_MS : Z) (dbg : bool) :
  (forall fuel buffer length flags (w : world T) r b' f' w' evs,
      receiveFrame POLL_TIMEOUT_MS dbg fuel buffer length flags w
      = (Some r, b', f', w') ->
      trace w' = trace w ++ evs ->
      exit_cause evs r
      /\ forall k,
          receiveFrame POLL_TIMEOUT_MS dbg (fuel + k) buffer length flags w
          = (Some r, b', f', w'))
  /\ (forall Inv : T -> Prop,
         (forall t, Inv t ->
                    fst (ws_poll (waitTime POLL_TIMEOUT_MS) t) = true
                    /\ Inv (snd (ws_poll (waitTime POLL_TIMEOUT_MS) t))) ->
         (forall t b l f, Inv t ->
            let '(n, b1, f1, t1) := ws_receiveFrame b l f t in
            (opcode f1 = FRAME_OP_PONG /\ Inv t1)
            \/ (opcode f1 = FRAME_OP_PING
                /\ fst (ws_sendFrame b1 n pong_flags t1) = n
                /\ Inv (snd (ws_sendFrame b1 n pong_flags t1)))) ->
         forall fuel buffer length flags (w : world T),
           Inv (sock w) ->
           exists b' f' w' evs,
             receiveFrame POLL_TIMEOUT_MS dbg fuel buffer length flags w
             = (None, b', f', w')
             /\ trace w' = trace w ++ evs /\ polls_made evs = fuel).
Proof.
  split.
  - intros fuel buffer length flags w r b' f' w' evs Hrun Htr. split.
    + apply receiveFrame_shape in Hrun. destruct Hrun as (lp & Htr' & Hlt).
      rewrite Htr' in Htr. apply app_inv_head in Htr. subst evs.
      apply exit_cause_app. eapply loop_trace_exit; eassumption.
    + intros k. unfold receiveFrame in *.
      apply receiveFrame_loop_more_fuel. exact Hrun.
  - intros Inv Hready Hcontrol fuel buffer length flags w Hinv.
    unfold receiveFrame.
    destruct (receiveFrame_loop_forever POLL_TIMEOUT_MS Inv Hready Hcontrol
                fuel buffer length flags (debug_delay dbg w))
      as (b' & f' & w' & evs & Hrun & Htr & Hn).
    { rewrite debug_delay_sock. exact Hinv. }
    exists b', f', w', (delay_events dbg ++ evs).
    split; [exact Hrun | split].
    + rewrite Htr, debug_delay_trace, <- app_assoc. reflexivity.
    + rewrite polls_made_app, Hn. destruct dbg; reflexivity.
Qed.

Lemma receiveFrame_termination_witness :
  exit_cause (trace (snd ping_then_text_run)) 10
  /\ (forall fuel,
         fst (fst (fst (receiveFrame 5000 false fuel area16 16 0
                                     (World pong_forever [])))) = None)
  /\ (forall fuel,
         fst (fst (fst (receiveFrame 5000 false fuel area16 16 0
                                     (World ping_forever [])))) = None).
Proof.
  destruct (@receiveFrame_termination script script_transport 5000 false)
    as [Hexit _].
  destruct (@receiveFrame_termination steady steady_transport 5000 false)
    as [_ Hloop].
  split; [|split].
  - destruct (Hexit 8%nat area16 16 0 (World ping_then_text [])
                    10 (snd (fst (fst ping_then_text_run)))
                    (snd (fst ping_then_text_run))
                    (snd ping_then_text_run)
                    (trace (snd ping_then_text_run)))
      as [Hcause _]; [vm_compute; reflexivity | reflexivity | exact Hcause].
  - intros fuel.
    destruct (Hloop (fun t => frame t = (3, 138, bytes "abc")))
      with (fuel := fuel) (buffer := area16) (length := 16) (flags := 0)
           (w := World pong_forever [])
      as (b' & f' & w' & evs & Hrun & _).
    + intros t Ht. split; [reflexivity | exact Ht].
    + intros t b l f Ht. simpl. rewrite Ht. left. split; [reflexivity | exact Ht].
    + reflexivity.
    + rewrite Hrun. reflexivity.
  - intros fuel.
    destruct (Hloop (fun t => frame t = (3, 137, bytes "abc")))
      with (fuel := fuel) (buffer := area16) (length := 16) (flags := 0)
           (w := World ping_forever [])
      as (b' & f' & w' & evs & Hrun & _).
    + intros t Ht. split; [reflexivity | exact Ht].
    + intros t b l f Ht. simpl. rewrite Ht. right.
      split; [reflexivity | split; [reflexivity | exact Ht]].
    + reflexivity.
    + rewrite Hrun. reflexivity.
Defined.

(** ** Further properties of the two functions *)

Lemma held_after_delay (dbg : bool) (evs : list event) :
  held_after [] (delay_events dbg ++ evs) = held_after [] evs.
Proof. destruct dbg; reflexivity. Qed.

Lemma loop_trace_released b f evs res b' f' :
  loop_trace b f evs res b' f' -> held_after [] evs = [].
Proof.
  induction 1 as [ | | b f b1 n f1 Hn1 Hn2 | b f b1 n f1 r Hp Hr
                   | b f b1 n f1 evs res b' f' Hp Hlt IH
                   | b f b1 n f1 evs res b' f' Hp Hlt IH ];
    try reflexivity; simpl; exact IH.
Qed.

(** X1.  Whichever way receiveFrame or sendFrame ends, by a return at the
    end or by one of the early returns of -1, and also where a run of the
    receive loop is cut between two passes, the calling thread holds
    neither mutex. *)
Theorem mutexes_released {T : Type} `{Transport T}
        (LARGE_MESSAGE_SIZE POLL_TIMEOUT_MS : Z) (dbg : bool) :
  (forall fuel buffer length flags (w : world T) res b' f' w' evs,
      receiveFrame POLL_TIMEOUT_MS dbg fuel buffer length flags w
      = (res, b', f', w') ->
      trace w' = trace w ++ evs ->
      held_after [] evs = [])
  /\ (forall buffer length flags (w : world T) r w' evs,
         sendFrame LARGE_MESSAGE_SIZE dbg buffer length flags w = (r, w') ->
         trace w' = trace w ++ evs ->
         held_after [] evs = []).
Proof.
  split.
  - intros fuel buffer length flags w res b' f' w' evs Hrun Htr.
    apply receiveFrame_shape in Hrun. destruct Hrun as (lp & Htr' & Hlt).
    rewrite Htr' in Htr. apply app_inv_head in Htr. subst evs.
    rewrite held_after_delay. eapply loop_trace_released; eassumption.
  - intros buffer length flags w r w' evs Hrun Htr.
    destruct (sendFrame_events _ _ _ _ _ _ _ _ _ Hrun Htr)
      as [[Hlt ->] | [[Hge ->] | [Hge (q & Hq & Hr & ->)]]];
      rewrite held_after_delay; reflexivity.
Qed.

Lemma mutexes_released_witness :
  held_after [] (trace (snd empty_ping_run)) = []
  /\ held_after [] (trace (snd (sendFrame 4 true (bytes "hello") 5 FRAME_TEXT
                                          (World short_first_write [])))) = [].
Proof.
  destruct (@mutexes_released script script_transport 4 5000 false)
    as [Hrecv _].
  destruct (@mutexes_released script script_transport 4 5000 true)
    as [_ Hsend].
  split.
  - apply (Hrecv 8%nat area16 16 0 (World empty_ping_then_text [])
                 (fst (fst (fst empty_ping_run)))
                 (snd (fst (fst empty_ping_run)))
                 (snd (fst empty_ping_run)) (snd empty_ping_run));
      [vm_compute; reflexivity | reflexivity].
  - apply (Hsend (bytes "hello") 5 FRAME_TEXT (World short_first_write [])
                 (fst (sendFrame 4 true (bytes "hello") 5 FRAME_TEXT
                                 (World short_first_write [])))
                 (snd (sendFrame 4 true (bytes "hello") 5 FRAME_TEXT
                                 (World short_first_write []))));
      [vm_compute; reflexivity | reflexivity].
Defined.



Lemma count_events_app (p : event -> bool) (a b : list event) :
  count_events p (a ++ b) = (count_events p a + count_events p b)%nat.
Proof. unfold count_events. rewrite filter_app, length_app. reflexivity. Qed.

Lemma loop_trace_counts b f evs res b' f' :
  loop_trace b f evs res b' f' ->
  count_events is_recv evs = count_events is_poll_readable evs
  /\ count_events (is_lock MutexRead) evs = count_events is_recv evs
  /\ count_events (is_lock MutexWrite) evs = count_events is_ping_recv evs
  /\ count_events is_send evs = count_events is_ping_recv evs.
Proof.
  induction 1 as [ | | b f b1 n f1 Hn1 Hn2 | b f b1 n f1 r Hp Hr
                   | b f b1 n f1 evs res b' f' Hp Hlt (IH1 & IH2 & IH3 & IH4)
                   | b f b1 n f1 evs res b' f' Hp Hlt (IH1 & IH2 & IH3 & IH4) ].
  - repeat split.
  - repeat split.
  - apply Z.eqb_neq in Hn1.
    unfold count_events. cbn -[opcode Z.eqb]. rewrite Hn1. repeat split.
  - apply Z.eqb_eq in Hp.
    unfold count_events. cbn -[opcode Z.eqb]. rewrite Hp. repeat split.
  - apply Z.eqb_eq in Hp. rewrite app_assoc, !count_events_app.
    unfold count_events, read_block, echo_block in *.
    cbn -[opcode Z.eqb]. rewrite Hp. cbn. repeat split; lia.
  - assert (Hn : (opcode f1 =? FRAME_OP_PING) = false)
      by (apply Z.eqb_neq; rewrite Hp; intro E; symmetry in E;
          exact (ping_neq_pong E)).
    rewrite !count_events_app.
    unfold count_events, read_block in *.
    cbn -[opcode Z.eqb]. rewrite Hn. cbn. repeat split; lia.
Qed.

Lemma count_events_delay (p : event -> bool) (dbg : bool) (evs : list event) :
  p EvSleep = false ->
  count_events p (delay_events dbg ++ evs) = count_events p evs.
Proof.
  intros Hp. unfold count_events. destruct dbg; simpl; [rewrite Hp|]; reflexivity.
Qed.

(** X3.  In any run of receiveFrame there are as many reads as polls that
    found the socket readable, the read mutex is taken once per read, and
    the write mutex is taken, and a frame written, once per read of a PING
    frame: a call that meets no PING frame leaves the write mutex and the
    write side of the socket alone.  The polls, reads and writes counted
    are calls made on the socket, and all that is done on it. *)
Theorem receiveFrame_accounting {T : Type} `{Transport T}
        (POLL_TIMEOUT_MS : Z) (dbg : bool) (fuel : nat)
        (buffer : list byte) (length flags : Z) (w : world T)
        (res : option Z) (b' : list byte) (f' : Z) (w' : world T)
        (evs : list event) :
  receiveFrame POLL_TIMEOUT_MS dbg fuel buffer length flags w = (res, b', f', w') ->
  trace w' = trace w ++ evs ->
  count_events is_recv evs = count_events is_poll_readable evs
  /\ count_events (is_lock MutexRead) evs = count_events is_recv evs
  /\ count_events (is_lock MutexWrite) evs = count_events is_ping_recv evs
  /\ count_events is_send evs = count_events is_ping_recv evs
  /\ on_socket (waitTime POLL_TIMEOUT_MS) length evs buffer flags
               (sock w) (sock w').
Proof.
  intros Hrun Htr.
  destruct (receiveFrame_on_socket _ _ _ _ _ _ _ _ _ _ _ _ Hrun Htr)
    as [Hon _].
  apply receiveFrame_shape in Hrun. destruct Hrun as (lp & Htr' & Hlt).
  rewrite Htr' in Htr. apply app_inv_head in Htr. subst evs.
  rewrite !count_events_delay by reflexivity.
  destruct (loop_trace_counts _ _ _ _ _ _ Hlt) as (H1 & H2 & H3 & H4).
  repeat split; assumption.
Qed.

Lemma receiveFrame_accounting_witness :
  count_events is_recv (trace (snd pong_ping_text_run)) = 3%nat
  /\ count_events (is_lock MutexWrite) (trace (snd pong_ping_text_run)) = 1%nat
  /\ count_events is_send (trace (snd pong_ping_text_run))
     = count_events is_ping_recv (trace (snd pong_ping_text_run))
  /\ on_socket (waitTime 5000) 16 (trace (snd pong_ping_text_run)) area16 0
               pong_ping_text (Script [] [] []).
Proof.
  destruct (@receiveFrame_accounting script script_transport
              5000 false 8 area16 16 0 (World pong_ping_text [])
              (Some 10) (overlay (bytes "0123456789") area16) 129
              (World (Script [] [] []) (trace (snd pong_ping_text_run)))
              (trace (snd pong_ping_text_run)))
    as (_ & _ & _ & Hs & Hon); [vm_compute; reflexivity | reflexivity |].
  split; [reflexivity | split; [reflexivity | split; [exact Hs | exact Hon]]].
Defined.





Section Rank.

Context {T : Type} `{Transport T}.
Variable POLL_TIMEOUT_MS : Z.

(** A measure of the socket state that every control frame taken off the
    socket makes smaller. *)
Variable rank : T -> nat.
Hypothesis rank_decreases :
  forall t b l f,
    fst (ws_poll (waitTime POLL_TIMEOUT_MS) t) = true ->
    let '(n, b1, f1, t2) :=
      ws_receiveFrame b l f (snd (ws_poll (waitTime POLL_TIMEOUT_MS) t)) in
    (opcode f1 = FRAME_OP_PONG -> (rank t2 < rank t)%nat)
    /\ (opcode f1 = FRAME_OP_PING ->
        fst (ws_sendFrame b1 n pong_flags t2) = n ->
        (rank (snd (ws_sendFrame b1 n pong_flags t2)) < rank t)%nat).

Lemma receiveFrame_loop_returns (fuel : nat) :
  forall buffer length flags (w : world T),
    (rank (sock w) < fuel)%nat ->
    exists r b' f' w',
      receiveFrame_loop POLL_TIMEOUT_MS fuel buffer length flags w
      = (Some r, b', f', w').
Proof.
  induction fuel as [|fuel IH]; intros buffer length flags w Hrank; [lia|].
  cbn [receiveFrame_loop]. unfold poll.
  pose proof (rank_decreases (sock w) buffer length flags) as Hdec.
  destruct (ws_poll (waitTime POLL_TIMEOUT_MS) (sock w)) as [ready s1].
  cbn [fst snd] in Hdec.
  destruct ready; [|eauto].
  specialize (Hdec eq_refl).
  unfold base_receiveFrame, lock, unlock, emit. cbn [sock trace].
  destruct (ws_receiveFrame buffer length flags s1) as [[[n b1] f1] s2].
  cbn [sock trace]. destruct Hdec as [Hpong Hping].
  destruct (opcode f1 =? FRAME_OP_PING) eqn:Ep.
  - apply Z.eqb_eq in Ep. specialize (Hping Ep).
    unfold base_sendFrame, emit. cbn [sock trace].
    change (Z.lor FRAME_FLAG_FIN FRAME_OP_PONG) with pong_flags.
    destruct (ws_sendFrame b1 n pong_flags s2) as [q s3].
    cbn [fst snd] in Hping.
    destruct (q =? n) eqn:Eq; cbn [negb sock trace]; [|eauto].
    apply Z.eqb_eq in Eq. specialize (Hping Eq).
    apply IH. cbn [sock]. lia.
  - destruct (opcode f1 =? FRAME_OP_PONG) eqn:Eo; [|eauto].
    apply Z.eqb_eq in Eo. specialize (Hpong Eo).
    apply IH. cbn [sock]. lia.
Qed.

End Rank.

(** X6.  Where some measure of the socket's state goes down with every
    PONG frame read and every PING frame read and echoed whole, receiveFrame
    returns, after at most one poll more than the measure at the start. *)
Theorem receiveFrame_returns_within {T : Type} `{Transport T}
        (POLL_TIMEOUT_MS : Z) (dbg : bool) (rank : T -> nat)
        (fuel : nat) (buffer : list byte) (length flags : Z) (w : world T) :
  (forall t b l f,
      fst (ws_poll (waitTime POLL_TIMEOUT_MS) t) = true ->
      let '(n, b1, f1, t2) :=
        ws_receiveFrame b l f (snd (ws_poll (waitTime POLL_TIMEOUT_MS) t)) in
      (opcode f1 = FRAME_OP_PONG -> (rank t2 < rank t)%nat)
      /\ (opcode f1 = FRAME_OP_PING ->
          fst (ws_sendFrame b1 n pong_flags t2) = n ->
          (rank (snd (ws_sendFrame b1 n pong_flags t2)) < rank t)%nat)) ->
  (rank (sock w) < fuel)%nat ->
  exists r b' f' w',
    receiveFrame POLL_TIMEOUT_MS dbg fuel buffer length flags w
    = (Some r, b', f', w').
Proof.
  intros Hdec Hrank. unfold receiveFrame.
  apply (receiveFrame_loop_returns POLL_TIMEOUT_MS rank Hdec).
  rewrite debug_delay_sock. exact Hrank.
Qed.

Lemma script_frames_decrease :
  forall (t : script) b l f,
    fst (ws_poll (waitTime 5000) t) = true ->
    let '(n, b1, f1, t2) :=
      ws_receiveFrame b l f (snd (ws_poll (waitTime 5000) t)) in
    (opcode f1 = FRAME_OP_PONG
     -> (List.length (frames t2) < List.length (frames t))%nat)
    /\ (opcode f1 = FRAME_OP_PING ->
        fst (ws_sendFrame b1 n pong_flags t2) = n ->
        (List.length (frames (snd (ws_sendFrame b1 n pong_flags t2)))
         < List.length (frames t))%nat).
Proof.
  intros [ps fs rs] b l f _. simpl.
  destruct ps as [|p ps]; simpl;
    (destruct fs as [|[[n fl] data] fs]; simpl;
     [split; [intros E | intros E _]; discriminate E |]);
    (split; [intros _; lia | intros _ _; destruct rs; simpl; lia]).
Qed.

Lemma receiveFrame_returns_within_witness :
  exists r b' f' w',
    receiveFrame 5000 false 5 area16 16 0 (World controls_then_text [])
    = (Some r, b', f', w').
Proof.
  apply (@receiveFrame_returns_within script script_transport 5000 false
           (fun t => List.length (frames t)) 5%nat area16 16 0
           (World controls_then_text []) script_frames_decrease).
  simpl. lia.
Defined.

(** X7.  In any run of receiveFrame, whatever control frames came before,
    a read whose flags carry an opcode other than PING and PONG ends the
    call: the caller gets the count, the buffer and the flags of that read
    as the socket gave them, after the read nothing is done but releasing
    the read mutex, and the writes asked for before it are the PONG echoes
    of the PING frames read before it.  The polls, reads and writes of the
    run are calls made on the socket, and all that is done on it. *)
Theorem receiveFrame_data_frame {T : Type} `{Transport T}
        (POLL_TIMEOUT_MS : Z) (dbg : bool) (fuel : nat)
        (buffer : list byte) (length flags : Z) (w : world T)
        (res : option Z) (b' : list byte) (f' : Z) (w' : world T)
        (pre : list event) (b : list byte) (n f : Z) (suf : list event) :
  receiveFrame POLL_TIMEOUT_MS dbg fuel buffer length flags w = (res, b', f', w') ->
  trace w' = trace w ++ pre ++ EvRecv b n f :: suf ->
  opcode f <> FRAME_OP_PING ->
  opcode f <> FRAME_OP_PONG ->
  res = Some n /\ b' = b /\ f' = f /\ suf = [EvUnlock MutexRead]
  /\ send_calls pre = pongs_owed pre
  /\ on_socket (waitTime POLL_TIMEOUT_MS) length (pre ++ EvRecv b n f :: suf)
               buffer flags (sock w) (sock w').
Proof.
  intros Hrun Htr Hn1 Hn2.
  destruct (receiveFrame_on_socket _ _ _ _ _ _ _ _ _ _ _ _ Hrun Htr)
    as [Hon _].
  apply receiveFrame_shape in Hrun. destruct Hrun as (lp & Htr' & Hlt).
  rewrite Htr' in Htr. apply app_inv_head in Htr.
  assert (Hs : every_suffix (frame_handled res b' f') (delay_events dbg ++ lp)).
  { apply every_suffix_delay; [intros; exact I |].
    eapply loop_trace_handled; eassumption. }
  pose proof (every_suffix_split _ _ Hs _ _ _ Htr) as Hf.
  simpl in Hf. destruct Hf as (_ & _ & Hdata).
  destruct (Hdata Hn1 Hn2) as (Hsuf & Hres & Hb & Hfl).
  repeat split; auto.
  pose proof (loop_trace_echoes _ _ _ _ _ _ Hlt) as Hech.
  assert (Hall : send_calls (delay_events dbg ++ lp)
                 = pongs_owed (delay_events dbg ++ lp)).
  { rewrite send_calls_app, pongs_owed_app. unfold send_calls at 1.
    rewrite sent_delay, pongs_owed_delay. exact Hech. }
  rewrite Htr, Hsuf in Hall.
  rewrite send_calls_app, pongs_owed_app in Hall.
  unfold send_calls at 2 in Hall. cbn -[opcode Z.eqb] in Hall.
  apply Z.eqb_neq in Hn1. rewrite Hn1 in Hall.
  rewrite !app_nil_r in Hall. exact Hall.
Qed.

Lemma receiveFrame_data_frame_witness :
  fst (fst (fst pong_ping_text_run)) = Some 10
  /\ snd (fst (fst pong_ping_text_run)) = overlay (bytes "0123456789") area16
  /\ snd (fst pong_ping_text_run) = 129
  /\ on_socket (waitTime 5000) 16
               (firstn 13 (trace (snd pong_ping_text_run))
                ++ EvRecv (overlay (bytes "0123456789") area16) 10 129
                   :: [EvUnlock MutexRead])
               area16 0 pong_ping_text (Script [] [] []).
Proof.
  destruct (@receiveFrame_data_frame script script_transport
              5000 false 8 area16 16 0 (World pong_ping_text [])
              (fst (fst (fst pong_ping_text_run)))
              (snd (fst (fst pong_ping_text_run)))
              (snd (fst pong_ping_text_run))
              (World (Script [] [] []) (trace (snd pong_ping_text_run)))
              (firstn 13 (trace (snd pong_ping_text_run)))
              (overlay (bytes "0123456789") area16) 10 129
              [EvUnlock MutexRead])
    as (Hres & Hb & Hf & _ & _ & Hon).
  - vm_compute. reflexivity.
  - vm_compute. reflexivity.
  - discriminate.
  - discriminate.
  - split; [exact Hres | split; [exact Hb | split; [exact Hf | exact Hon]]].
Defined.

(** ** The text of the preamble *)

Lemma to_int_not_nil (z : Z) :
  Z.to_int z <> Decimal.Pos Decimal.Nil /\ Z.to_int z <> Decimal.Neg Decimal.Nil.
Proof.
  destruct z as [|p|p]; simpl; split; try discriminate;
    intros E; injection E as E;
      exact (DecimalPos.Unsigned.to_uint_nonnil p E).
Qed.

Lemma to_string_inj (a b : Z) : to_string a = to_string b -> a = b.
Proof.
  unfold to_string. intros E.
  apply (f_equal NilZero.int_of_string) in E.
  destruct (to_int_not_nil a) as [Ha1 Ha2], (to_int_not_nil b) as [Hb1 Hb2].
  rewrite !NilZero.isi in E by assumption.
  injection E as E. apply DecimalZ.to_int_inj. exact E.
Qed.

(** X8.  The preamble tells the length: two different lengths never have
    the same preamble, as a text or as the bytes handed to the socket. *)
Theorem nextmessage_inj (a b : Z) :
  a <> b ->
  nextmessage a <> nextmessage b /\ preamble_text a <> preamble_text b.
Proof.
  intros Hab.
  assert (Hs : nextmessage a <> nextmessage b).
  { unfold nextmessage. simpl. intros E. injection E as E.
    apply Hab, to_string_inj. exact E. }
  split; [exact Hs|].
  unfold preamble_text. intros E. apply Hs.
  rewrite <- (string_of_list_byte_of_string (nextmessage a)),
          <- (string_of_list_byte_of_string (nextmessage b)), E.
  reflexivity.
Qed.

Lemma nextmessage_inj_witness :
  nextmessage 150 <> nextmessage 1500 /\ preamble_text 150 <> preamble_text 1500.
Proof.
  apply (nextmessage_inj 150 1500). discriminate.
Defined.

Lemma string_of_uint_length (d : Decimal.uint) :
  String.length (NilEmpty.string_of_uint d) = Decimal.nb_digits d.
Proof. induction d; simpl; congruence. Qed.

Lemma nilzero_length (d : Decimal.uint) :
  d <> Decimal.Nil ->
  String.length (NilZero.string_of_uint d) = Decimal.nb_digits d.
Proof.
  intros Hnil. destruct d; try contradiction;
    unfold NilZero.string_of_uint; apply string_of_uint_length.
Qed.

Lemma usize_nb_digits (d : Decimal.uint) :
  DecimalPos.Unsigned.usize d = N.of_nat (Decimal.nb_digits d).
Proof. induction d; simpl; rewrite ?IHd; lia. Qed.

Lemma to_uint_nzhead (p : positive) :
  Decimal.nzhead (Pos.to_uint p) = Pos.to_uint p.
Proof.
  pose proof (DecimalPos.Unsigned.to_of (Pos.to_uint p)) as E.
  rewrite DecimalPos.Unsigned.of_to in E. simpl in E.
  pose proof (DecimalPos.Unsigned.to_uint_nonzero p) as Hz.
  unfold Decimal.unorm in E.
  destruct (Decimal.nzhead (Pos.to_uint p)); congruence.
Qed.

Lemma leading_digit_bound (d : Decimal.uint) :
  d <> Decimal.Nil -> Decimal.nzhead d = d ->
  (10 ^ N.of_nat (Decimal.nb_digits d - 1)
   <= DecimalPos.Unsigned.of_lu (Decimal.rev d))%N.
Proof.
  intros Hnil Hhead.
  destruct d as [|d|d|d|d|d|d|d|d|d|d]; [contradiction | | | | | | | | | |];
    try (unfold Decimal.rev; cbn [Decimal.revapp Decimal.nb_digits];
         rewrite DecimalPos.Unsigned.of_lu_revapp, usize_nb_digits;
         cbn [DecimalPos.Unsigned.of_lu];
         replace (S (Decimal.nb_digits d) - 1)%nat with (Decimal.nb_digits d)
           by lia;
         nia).
  exfalso. simpl in Hhead.
  pose proof (DecimalFacts.nb_digits_nzhead d) as Hle.
  rewrite Hhead in Hle. simpl in Hle. lia.
Qed.

Lemma digits_bound (p : positive) (k : nat) :
  (N.pos p < 10 ^ N.of_nat k)%N ->
  (1 <= Decimal.nb_digits (Pos.to_uint p) <= k)%nat.
Proof.
  intros Hlt.
  pose proof (DecimalPos.Unsigned.to_uint_nonnil p) as Hnil.
  pose proof (leading_digit_bound _ Hnil (to_uint_nzhead p)) as Hlow.
  rewrite <- DecimalPos.Unsigned.of_uint_alt, DecimalPos.Unsigned.of_to in Hlow.
  assert (Hpow : (10 ^ N.of_nat (Decimal.nb_digits (Pos.to_uint p) - 1)
                  < 10 ^ N.of_nat k)%N) by lia.
  apply N.pow_lt_mono_r_iff in Hpow; [|lia].
  split; [|lia].
  destruct (Pos.to_uint p); simpl; try lia. contradiction.
Qed.

Lemma to_string_length (z : Z) :
  - 2 ^ 31 <= z < 2 ^ 31 ->
  (1 <= String.length (to_string z) <= 11)%nat.
Proof.
  intros Hz. unfold to_string. destruct z as [|p|p]; simpl.
  - lia.
  - pose proof (DecimalPos.Unsigned.to_uint_nonnil p) as Hnil.
    assert (Hd : (1 <= Decimal.nb_digits (Pos.to_uint p) <= 10)%nat)
      by (apply digits_bound; change (10 ^ N.of_nat 10)%N with 10000000000%N;
          lia).
    rewrite nilzero_length by exact Hnil. lia.
  - pose proof (DecimalPos.Unsigned.to_uint_nonnil p) as Hnil.
    assert (Hd : (1 <= Decimal.nb_digits (Pos.to_uint p) <= 10)%nat)
      by (apply digits_bound; change (10 ^ N.of_nat 10)%N with 10000000000%N;
          lia).
    rewrite nilzero_length by exact Hnil. lia.
Qed.

Lemma list_byte_of_string_length (s : string) :
  List.length (list_byte_of_string s) = String.length s.
Proof.
  unfold list_byte_of_string. rewrite length_map.
  induction s as [|c s IH]; simpl; congruence.
Qed.

(** X9.  For every [length] an int can hold, the preamble is between 19
    and 29 bytes long, so that its size fits the int it is stored in. *)
Theorem preamble_size_bounds (length : Z) :
  - 2 ^ 31 <= length < 2 ^ 31 ->
  19 <= preamble_size length <= 29
  /\ List.length (preamble_text length) = Z.to_nat (preamble_size length).
Proof.
  intros Hz. pose proof (to_string_length length Hz) as Hlen.
  unfold preamble_size, preamble_text, nextmessage.
  rewrite list_byte_of_string_length. simpl String.length. split; lia.
Qed.

Lemma preamble_size_bounds_witness :
  19 <= preamble_size (- 2 ^ 31) <= 29
  /\ List.length (preamble_text (- 2 ^ 31)) = Z.to_nat (preamble_size (- 2 ^ 31)).
Proof.
  apply (preamble_size_bounds (- 2 ^ 31)). lia.
Defined.

(** ** The debug delay *)

(** X10.  With a jitter above zero in the environment, and the delay and
    the jitter together within the range of the milliseconds count,
    getWebSocketDelay gives at least the delay and less than the delay plus
    the jitter, whatever std::rand() gives. *)
Theorem getWebSocketDelay_jitter (getenv : string -> option string)
        (stoul : string -> option Z) (rand baseDelay jitter : Z) :
  env_ulong getenv stoul "LOOL_WS_DELAY" = Some baseDelay ->
  env_ulong getenv stoul "LOOL_WS_JITTER" = Some jitter ->
  0 <= baseDelay ->
  0 < jitter ->
  baseDelay + jitter <= 2 ^ 63 ->
  exists d,
    getWebSocketDelay getenv stoul rand = Some d
    /\ baseDelay <= d < baseDelay + jitter.
Proof.
  intros Hd Hj Hb Hpos Hsum. unfold getWebSocketDelay. rewrite Hd, Hj.
  replace (0 <? jitter) with true by (symmetry; apply Z.ltb_lt; exact Hpos).
  pose proof (Z.mod_pos_bound (to_ulong rand) jitter Hpos) as Hm.
  set (j := to_ulong rand mod jitter) in *.
  assert (E : to_ulong (baseDelay + j) = baseDelay + j)
    by (unfold to_ulong, ULONG_MODULUS; apply Z.mod_small; lia).
  eexists. split; [reflexivity|].
  rewrite E. unfold to_rep.
  destruct (Z.ltb_spec (baseDelay + j) (2 ^ 63)); lia.
Qed.

Lemma getWebSocketDelay_jitter_witness :
  exists d,
    getWebSocketDelay env_100_50 std_stoul 12345 = Some d
    /\ 100 <= d < 100 + 50.
Proof.
  apply (getWebSocketDelay_jitter env_100_50 std_stoul 12345 100 50);
    try reflexivity; lia.
Defined.


